(** * The funnel store of the funnel builder (useFunnelStore)

    A shallow embedding of the React hook [useFunnelStore] and of the types
    it works on ([types/funnel.ts]), followed by the properties of the
    store: validation warnings and the validation panel, label counters,
    the undo/redo history, drags, persistence, and the import and export
    paths.

    Conventions of the embedding.
    - JavaScript arrays are lists, strings are [string], optional fields are
      [option].  Label counters and parsed label suffixes are exact natural
      numbers ([N]).  JavaScript computes with them in doubles, which agree
      with the naturals up to [MAX_SAFE_INTEGER] (2^53 - 1); beyond it
      [parseInt] and [+ 1] round and a template literal no longer prints
      every digit, so the properties that depend on a number being printed,
      read back or incremented are stated for safe integers.  Node
      coordinates are carried around untouched and are modelled as integers.
    - [JSON.parse(JSON.stringify v)] is the identity on the values modelled
      here, so a deep copy is the value itself.  Numbers of a parsed
      document are integers; the store only ever asks whether one is zero.
    - Fields of a node that the store never reads or writes ([measured],
      [selected], ... added by the rendering library) are left out.
    - React state is a record; a handler is a function on that record which
      performs its writes and then runs the effects of the renders that
      follow, in declaration order, until no dependency changes any more.
      Array identity only matters for deciding which effects run: every
      write names the state cells that received a fresh array.
    - The record also keeps, in [events], what the store has done to the
      outside (writes to localStorage, history pushes, validation passes),
      most recent first, so that the order of the effects can be stated. *)

From Stdlib Require Import List String Ascii Bool ZArith NArith Lia.
From Stdlib Require Import DecimalString DecimalN.
Import ListNotations.
Local Open Scope string_scope.
Local Open Scope list_scope.
Local Open Scope Z_scope.

Set Implicit Arguments.

(** ** Domain model (types/funnel.ts) *)

Inductive NodeType := salesPage | orderPage | upsell | downsell | thankYou.

Definition NodeType_eqb (a b : NodeType) : bool :=
  match a, b with
  | salesPage, salesPage | orderPage, orderPage | upsell, upsell
  | downsell, downsell | thankYou, thankYou => true
  | _, _ => false
  end.

Record Position := { px : Z; py : Z }.

Record FunnelNodeData := {
  label : string;
  nodeType : NodeType;
  buttonLabel : string;
  hasWarning : option bool;
  warningMessage : option string
}.

Record FunnelNode := {
  id : string;
  type : string;
  position : Position;
  data : FunnelNodeData
}.

Record FunnelEdge := {
  eid : string;
  source : string;
  target : string;
  sourceHandle : option string;
  targetHandle : option string;
  animated : bool
}.

Record FunnelState := { s_nodes : list FunnelNode; s_edges : list FunnelEdge }.

Record NodeTypeConfig := {
  cfg_label : string;
  defaultButtonLabel : string;
  color : string;
  icon : string;
  canHaveOutgoing : bool;
  description : string
}.

Definition NODE_TYPE_CONFIG (t : NodeType) : NodeTypeConfig :=
  match t with
  | salesPage => {| cfg_label := "Sales Page"; defaultButtonLabel := "Buy Now";
                    color := "node-sales"; icon := "Megaphone";
                    canHaveOutgoing := true;
                    description := "Landing page to pitch your offer" |}
  | orderPage => {| cfg_label := "Order Page"; defaultButtonLabel := "Complete Order";
                    color := "node-order"; icon := "ShoppingCart";
                    canHaveOutgoing := true;
                    description := "Checkout form for the purchase" |}
  | upsell => {| cfg_label := "Upsell"; defaultButtonLabel := "Yes, Add This!";
                 color := "node-upsell"; icon := "TrendingUp";
                 canHaveOutgoing := true;
                 description := "Additional offer after purchase" |}
  | downsell => {| cfg_label := "Downsell"; defaultButtonLabel := "Get This Instead";
                   color := "node-downsell"; icon := "TrendingDown";
                   canHaveOutgoing := true;
                   description := "Alternative offer if upsell declined" |}
  | thankYou => {| cfg_label := "Thank You"; defaultButtonLabel := "Continue";
                   color := "node-thankyou"; icon := "Heart";
                   canHaveOutgoing := false;
                   description := "Confirmation page after purchase" |}
  end.

(** ** Constants of the store (hooks/useFunnelStore.ts) *)

Definition HistoryState := FunnelState.

Definition MAX_HISTORY_SIZE : nat := 50.

Definition mkNode (i : string) (x y : Z) (l : string) (t : NodeType) (b : string)
  : FunnelNode :=
  {| id := i; type := "funnelNode"; position := {| px := x; py := y |};
     data := {| label := l; nodeType := t; buttonLabel := b;
                hasWarning := None; warningMessage := None |} |}.

Definition initialNodes : list FunnelNode :=
  [ mkNode "sales-1" 250 50 "Sales Page" salesPage "Buy Now";
    mkNode "order-1" 250 300 "Order Page" orderPage "Complete Order";
    mkNode "thankyou-1" 250 550 "Thank You" thankYou "Continue" ].

Definition mkEdge (i s t : string) : FunnelEdge :=
  {| eid := i; source := s; target := t;
     sourceHandle := None; targetHandle := None; animated := true |}.

Definition initialEdges : list FunnelEdge :=
  [ mkEdge "e-sales-order" "sales-1" "order-1";
    mkEdge "e-order-thankyou" "order-1" "thankyou-1" ].

(** Label counters: [Record<NodeType, number>]. *)
Record LabelCounts := {
  c_salesPage : N; c_orderPage : N; c_upsell : N; c_downsell : N; c_thankYou : N
}.

Definition createLabelCounter : LabelCounts :=
  {| c_salesPage := 1; c_orderPage := 1; c_upsell := 0; c_downsell := 0;
     c_thankYou := 1 |}.

(** [counts[nodeType]] *)
Definition getCount (c : LabelCounts) (t : NodeType) : N :=
  match t with
  | salesPage => c_salesPage c | orderPage => c_orderPage c
  | upsell => c_upsell c | downsell => c_downsell c | thankYou => c_thankYou c
  end.

(** [{ ...prev, [nodeType]: v }] and [counts[nodeType] = v]. *)
Definition setCount (c : LabelCounts) (t : NodeType) (v : N) : LabelCounts :=
  match t with
  | salesPage => {| c_salesPage := v; c_orderPage := c_orderPage c;
                    c_upsell := c_upsell c; c_downsell := c_downsell c;
                    c_thankYou := c_thankYou c |}
  | orderPage => {| c_salesPage := c_salesPage c; c_orderPage := v;
                    c_upsell := c_upsell c; c_downsell := c_downsell c;
                    c_thankYou := c_thankYou c |}
  | upsell => {| c_salesPage := c_salesPage c; c_orderPage := c_orderPage c;
                 c_upsell := v; c_downsell := c_downsell c;
                 c_thankYou := c_thankYou c |}
  | downsell => {| c_salesPage := c_salesPage c; c_orderPage := c_orderPage c;
                   c_upsell := c_upsell c; c_downsell := v;
                   c_thankYou := c_thankYou c |}
  | thankYou => {| c_salesPage := c_salesPage c; c_orderPage := c_orderPage c;
                   c_upsell := c_upsell c; c_downsell := c_downsell c;
                   c_thankYou := v |}
  end.

(** ** Validation pass (the effect on [edges, isInitialized]) *)

Definition opt_bool_eqb (a : option bool) (b : bool) : bool :=
  match a with Some x => Bool.eqb x b | None => false end.

Definition opt_string_eqb (a : option string) (b : string) : bool :=
  match a with Some x => String.eqb x b | None => false end.

Definition outgoingEdges (edges : list FunnelEdge) (node : FunnelNode) :=
  filter (fun e => String.eqb (source e) (id node)) edges.

Definition incomingEdges (edges : list FunnelEdge) (node : FunnelNode) :=
  filter (fun e => String.eqb (target e) (id node)) edges.

Definition msgSalesNoOrder := "Sales page should connect to an Order page".
Definition msgSalesMany := "Sales page should have only one outgoing connection".
Definition msgOrphan := "This node is not connected to the funnel".

(** The two local variables [hasWarning] and [warningMessage] of the map
    callback, after both [if] blocks. *)
Definition computeWarning (edges : list FunnelEdge) (node : FunnelNode)
  : bool * string :=
  let w0 := (false, "") in
  let w1 :=
    if NodeType_eqb (nodeType (data node)) salesPage then
      if Nat.eqb (List.length (outgoingEdges edges node)) 0 then (true, msgSalesNoOrder)
      else if Nat.ltb 1 (List.length (outgoingEdges edges node)) then (true, msgSalesMany)
      else w0
    else w0 in
  if negb (NodeType_eqb (nodeType (data node)) salesPage) then
    if Nat.eqb (List.length (incomingEdges edges node)) 0 then (true, msgOrphan)
    else w1
  else w1.

(** [node.data.hasWarning !== hasWarning || node.data.warningMessage !== warningMessage] *)
Definition warningDiffers (node : FunnelNode) (w : bool * string) : bool :=
  negb (opt_bool_eqb (hasWarning (data node)) (fst w))
  || negb (opt_string_eqb (warningMessage (data node)) (snd w)).

Definition withWarning (node : FunnelNode) (w : bool * string) : FunnelNode :=
  {| id := id node; type := type node; position := position node;
     data := {| label := label (data node); nodeType := nodeType (data node);
                buttonLabel := buttonLabel (data node);
                hasWarning := Some (fst w); warningMessage := Some (snd w) |} |}.

(** What a [map] callback returns: the object it was given, or an object
    it has built. *)
Inductive Returned :=
| SameObject (node : FunnelNode)
| FreshObject (node : FunnelNode).

Definition returnedValue (r : Returned) : FunnelNode :=
  match r with SameObject node | FreshObject node => node end.

(** The callback of [nds.map]: a fresh object when the warning state
    differs, the node itself otherwise. *)
Definition validateNodeReturn (edges : list FunnelEdge) (node : FunnelNode)
  : Returned :=
  if warningDiffers node (computeWarning edges node)
  then FreshObject (withWarning node (computeWarning edges node))
  else SameObject node.

(** The node in the mapped array, as a value. *)
Definition validateNode (edges : list FunnelEdge) (node : FunnelNode) : FunnelNode :=
  returnedValue (validateNodeReturn edges node).

Definition validateNodes (edges : list FunnelEdge) (nds : list FunnelNode)
  : list FunnelNode :=
  map (validateNode edges) nds.

(** ** Label allocator *)

Definition isDigit (c : ascii) : bool :=
  (48 <=? nat_of_ascii c)%nat && (nat_of_ascii c <=? 57)%nat.

Definition digitValue (c : ascii) : N := N.of_nat (nat_of_ascii c - 48).

(** The text matched by [/(\d+)$/]: the longest run of digits that ends the
    string (empty when the string does not end in a digit). *)
Fixpoint trailingDigits (s : string) : string :=
  match s with
  | EmptyString => EmptyString
  | String c rest =>
      let r := trailingDigits rest in
      if isDigit c && Nat.eqb (String.length r) (String.length rest)
      then String c r else r
  end.

(** The integer a string of digits denotes, read left to right: what
    [parseInt(digits, 10)] returns when that integer is a safe integer. *)
Fixpoint parseDigits (acc : N) (s : string) : N :=
  match s with
  | EmptyString => acc
  | String c rest => parseDigits (acc * 10 + digitValue c) rest
  end.

(** [label.match(/(\d+)$/)] followed by [parseInt(match[1], 10)]:
    [None] when there is no match. *)
Definition labelSuffix (l : string) : option N :=
  match trailingDigits l with
  | EmptyString => None
  | ds => Some (parseDigits 0 ds)
  end.

(** The decimal digits of a number: what a template literal prints for a
    safe integer. *)
Definition numberToString (n : N) : string :=
  NilEmpty.string_of_uint (N.to_uint n).

(** The [forEach] callback of the load effect. *)
Definition reconstructLoadStep (counts : LabelCounts) (node : FunnelNode)
  : LabelCounts :=
  let k := nodeType (data node) in
  match labelSuffix (label (data node)) with
  | Some num => if (getCount counts k <=? num)%N then setCount counts k num else counts
  | None => setCount counts k (N.max (getCount counts k) 1)
  end.

(** The [forEach] callback of [importFunnel]: no [else] branch. *)
Definition reconstructImportStep (counts : LabelCounts) (node : FunnelNode)
  : LabelCounts :=
  let k := nodeType (data node) in
  match labelSuffix (label (data node)) with
  | Some num => if (getCount counts k <=? num)%N then setCount counts k num else counts
  | None => counts
  end.

Definition reconstructLoad (nds : list FunnelNode) : LabelCounts :=
  fold_left reconstructLoadStep nds createLabelCounter.

Definition reconstructImport (nds : list FunnelNode) : LabelCounts :=
  fold_left reconstructImportStep nds createLabelCounter.

Definition nodeTypeName (t : NodeType) : string :=
  match t with
  | salesPage => "salesPage" | orderPage => "orderPage" | upsell => "upsell"
  | downsell => "downsell" | thankYou => "thankYou"
  end.

(** The label computed inside the [setLabelCounts] updater of [addNode]. *)
Definition allocateLabel (t : NodeType) (newCount : N) : string :=
  let config := NODE_TYPE_CONFIG t in
  let numbered := String.append (cfg_label config)
                    (String.append " " (numberToString newCount)) in
  if NodeType_eqb t upsell || NodeType_eqb t downsell then numbered
  else if (1 <? newCount)%N then numbered
  else cfg_label config.

(** The node built by [addNode]; [now] is the value of [Date.now()]. *)
Definition newNode (t : NodeType) (pos : Position) (now : N) (newCount : N)
  : FunnelNode :=
  {| id := String.append (nodeTypeName t) (String.append "-" (numberToString now));
     type := "funnelNode";
     position := pos;
     data := {| label := allocateLabel t newCount; nodeType := t;
                buttonLabel := defaultButtonLabel (NODE_TYPE_CONFIG t);
                hasWarning := None; warningMessage := None |} |}.

(** ** Parsed JSON

    [JSON.parse] is a built-in; the store is modelled on its outcome.  A
    JavaScript value read from a parsed document is [option JValue], [None]
    standing for [undefined]. *)

#[local] Set Warnings "-register-all".
Inductive JValue :=
| JNull
| JBool (b : bool)
| JNum (n : Z)
| JStr (s : string)
| JArr (items : list JValue)
| JObj (fields : list (string * JValue)).

(** Outcome of an expression that may throw. *)
Inductive Js (A : Type) := Threw | Ok (a : A).
Arguments Threw {A}.
Arguments Ok {A} a.

(** Own property of a parsed object; with repeated keys the last one wins,
    as [JSON.parse] keeps it. *)
Definition lookupField (k : string) (fields : list (string * JValue))
  : option JValue :=
  fold_left (fun acc kv => if String.eqb (fst kv) k then Some (snd kv) else acc)
            fields None.

(** [v.k] for the keys the store reads ([nodes], [edges], [data], [label]):
    a TypeError on [null] and [undefined], [undefined] on every value that
    is not an object with that key. *)
Definition getProp (v : option JValue) (k : string) : Js (option JValue) :=
  match v with
  | None | Some JNull => Threw
  | Some (JObj fields) => Ok (lookupField k fields)
  | Some _ => Ok None
  end.

(** [!v] is false. *)
Definition truthy (v : option JValue) : bool :=
  match v with
  | None | Some JNull => false
  | Some (JBool b) => b
  | Some (JNum n) => negb (n =? 0)
  | Some (JStr s) => negb (String.eqb s "")
  | Some (JArr _) | Some (JObj _) => true
  end.

(** Whether [node.data.label.match(...)] can be evaluated: [node.data] must
    not be null or undefined and [label] must be a string. *)
Definition labelReadable (node : JValue) : bool :=
  match getProp (Some node) "data" with
  | Threw => false
  | Ok d => match getProp d "label" with
            | Ok (Some (JStr _)) => true
            | _ => false
            end
  end.

(** Whether [nodes.forEach(...)] of the label reconstruction runs to its
    end: [nodes] must be an array and every element must pass
    [labelReadable]. *)
Definition labelLoopCompletes (nodes : option JValue) : bool :=
  match nodes with
  | Some (JArr items) => forallb labelReadable items
  | _ => false
  end.

(** *** Reading a parsed value at the declared types

    [const state: FunnelState = JSON.parse(json)] is an unchecked cast.  The
    store record below holds values of the declared types only, so a parsed
    value enters it through these readers; a value that does not have the
    declared shape leaves the typed model. *)

Definition asString (v : option JValue) : option string :=
  match v with Some (JStr s) => Some s | _ => None end.

Definition asNumber (v : option JValue) : option Z :=
  match v with Some (JNum n) => Some n | _ => None end.

Definition asBool (v : option JValue) : option bool :=
  match v with Some (JBool b) => Some b | _ => None end.

Definition asFields (v : option JValue) : option (list (string * JValue)) :=
  match v with Some (JObj fs) => Some fs | _ => None end.

(** An optional field: absent, or present with the declared type. *)
Definition asOptional {A} (rd : option JValue -> option A) (v : option JValue)
  : option (option A) :=
  match v with
  | None => Some None
  | Some _ => match rd v with Some a => Some (Some a) | None => None end
  end.

Definition bind {A B} (o : option A) (f : A -> option B) : option B :=
  match o with Some a => f a | None => None end.

Notation "x <- e ;; k" := (bind e (fun x => k))
  (at level 61, e at next level, right associativity).

Definition readNodeType (v : option JValue) : option NodeType :=
  s <- asString v ;;
  if String.eqb s "salesPage" then Some salesPage
  else if String.eqb s "orderPage" then Some orderPage
  else if String.eqb s "upsell" then Some upsell
  else if String.eqb s "downsell" then Some downsell
  else if String.eqb s "thankYou" then Some thankYou
  else None.

Definition readPosition (v : option JValue) : option Position :=
  fs <- asFields v ;;
  x <- asNumber (lookupField "x" fs) ;;
  y <- asNumber (lookupField "y" fs) ;;
  Some {| px := x; py := y |}.

Definition readData (v : option JValue) : option FunnelNodeData :=
  fs <- asFields v ;;
  l <- asString (lookupField "label" fs) ;;
  t <- readNodeType (lookupField "nodeType" fs) ;;
  b <- asString (lookupField "buttonLabel" fs) ;;
  hw <- asOptional asBool (lookupField "hasWarning" fs) ;;
  wm <- asOptional asString (lookupField "warningMessage" fs) ;;
  Some {| label := l; nodeType := t; buttonLabel := b;
          hasWarning := hw; warningMessage := wm |}.

Definition readNode (v : JValue) : option FunnelNode :=
  fs <- asFields (Some v) ;;
  i <- asString (lookupField "id" fs) ;;
  ty <- asString (lookupField "type" fs) ;;
  p <- readPosition (lookupField "position" fs) ;;
  d <- readData (lookupField "data" fs) ;;
  Some {| id := i; type := ty; position := p; data := d |}.

Definition readEdge (v : JValue) : option FunnelEdge :=
  fs <- asFields (Some v) ;;
  i <- asString (lookupField "id" fs) ;;
  s <- asString (lookupField "source" fs) ;;
  t <- asString (lookupField "target" fs) ;;
  sh <- asOptional asString (lookupField "sourceHandle" fs) ;;
  th <- asOptional asString (lookupField "targetHandle" fs) ;;
  a <- asBool (lookupField "animated" fs) ;;
  Some {| eid := i; source := s; target := t;
          sourceHandle := sh; targetHandle := th; animated := a |}.

Fixpoint readAll {A} (rd : JValue -> option A) (items : list JValue)
  : option (list A) :=
  match items with
  | [] => Some []
  | v :: rest => a <- rd v ;; l <- readAll rd rest ;; Some (a :: l)
  end.

Definition readNodes (v : option JValue) : option (list FunnelNode) :=
  match v with Some (JArr items) => readAll readNode items | _ => None end.

Definition readEdges (v : option JValue) : option (list FunnelEdge) :=
  match v with Some (JArr items) => readAll readEdge items | _ => None end.

(** ** The store: React state, refs and the world it writes to *)

(** What the store does to the outside, most recent first: writes to
    [localStorage], entries pushed on the history, validation passes. *)
Inductive Event :=
| EvSave (s : FunnelState)
| EvSnapshot (s : HistoryState)
| EvValidate.

Record Store := {
  (* useState *)
  nodes : list FunnelNode;
  edges : list FunnelEdge;
  labelCounts : LabelCounts;
  isInitialized : bool;
  history : list HistoryState;
  currentIndex : Z;
  (* useRef *)
  currentIndexRef : Z;
  isUndoRedoRef : bool;
  isInitialLoadRef : bool;
  isValidationUpdateRef : bool;
  isDraggingRef : bool;
  (* the state captured by the pending debounce timer, if one is armed *)
  dragDebounceTimerRef : option HistoryState;
  (* localStorage[STORAGE_KEY] as last written by the store *)
  localStorage : option FunnelState;
  events : list Event
}.

Definition setNodes v st :=
  {| nodes := v; edges := edges st; labelCounts := labelCounts st;
     isInitialized := isInitialized st; history := history st;
     currentIndex := currentIndex st; currentIndexRef := currentIndexRef st;
     isUndoRedoRef := isUndoRedoRef st; isInitialLoadRef := isInitialLoadRef st;
     isValidationUpdateRef := isValidationUpdateRef st;
     isDraggingRef := isDraggingRef st;
     dragDebounceTimerRef := dragDebounceTimerRef st;
     localStorage := localStorage st; events := events st |}.

Definition setEdges v st :=
  {| nodes := nodes st; edges := v; labelCounts := labelCounts st;
     isInitialized := isInitialized st; history := history st;
     currentIndex := currentIndex st; currentIndexRef := currentIndexRef st;
     isUndoRedoRef := isUndoRedoRef st; isInitialLoadRef := isInitialLoadRef st;
     isValidationUpdateRef := isValidationUpdateRef st;
     isDraggingRef := isDraggingRef st;
     dragDebounceTimerRef := dragDebounceTimerRef st;
     localStorage := localStorage st; events := events st |}.

Definition setLabelCounts v st :=
  {| nodes := nodes st; edges := edges st; labelCounts := v;
     isInitialized := isInitialized st; history := history st;
     currentIndex := currentIndex st; currentIndexRef := currentIndexRef st;
     isUndoRedoRef := isUndoRedoRef st; isInitialLoadRef := isInitialLoadRef st;
     isValidationUpdateRef := isValidationUpdateRef st;
     isDraggingRef := isDraggingRef st;
     dragDebounceTimerRef := dragDebounceTimerRef st;
     localStorage := localStorage st; events := events st |}.

Definition setIsInitialized v st :=
  {| nodes := nodes st; edges := edges st; labelCounts := labelCounts st;
     isInitialized := v; history := history st;
     currentIndex := currentIndex st; currentIndexRef := currentIndexRef st;
     isUndoRedoRef := isUndoRedoRef st; isInitialLoadRef := isInitialLoadRef st;
     isValidationUpdateRef := isValidationUpdateRef st;
     isDraggingRef := isDraggingRef st;
     dragDebounceTimerRef := dragDebounceTimerRef st;
     localStorage := localStorage st; events := events st |}.

Definition setHistory v st :=
  {| nodes := nodes st; edges := edges st; labelCounts := labelCounts st;
     isInitialized := isInitialized st; history := v;
     currentIndex := currentIndex st; currentIndexRef := currentIndexRef st;
     isUndoRedoRef := isUndoRedoRef st; isInitialLoadRef := isInitialLoadRef st;
     isValidationUpdateRef := isValidationUpdateRef st;
     isDraggingRef := isDraggingRef st;
     dragDebounceTimerRef := dragDebounceTimerRef st;
     localStorage := localStorage st; events := events st |}.

Definition setCurrentIndex v st :=
  {| nodes := nodes st; edges := edges st; labelCounts := labelCounts st;
     isInitialized := isInitialized st; history := history st;
     currentIndex := v; currentIndexRef := currentIndexRef st;
     isUndoRedoRef := isUndoRedoRef st; isInitialLoadRef := isInitialLoadRef st;
     isValidationUpdateRef := isValidationUpdateRef st;
     isDraggingRef := isDraggingRef st;
     dragDebounceTimerRef := dragDebounceTimerRef st;
     localStorage := localStorage st; events := events st |}.

Definition setCurrentIndexRef v st :=
  {| nodes := nodes st; edges := edges st; labelCounts := labelCounts st;
     isInitialized := isInitialized st; history := history st;
     currentIndex := currentIndex st; currentIndexRef := v;
     isUndoRedoRef := isUndoRedoRef st; isInitialLoadRef := isInitialLoadRef st;
     isValidationUpdateRef := isValidationUpdateRef st;
     isDraggingRef := isDraggingRef st;
     dragDebounceTimerRef := dragDebounceTimerRef st;
     localStorage := localStorage st; events := events st |}.

Definition setIsUndoRedoRef v st :=
  {| nodes := nodes st; edges := edges st; labelCounts := labelCounts st;
     isInitialized := isInitialized st; history := history st;
     currentIndex := currentIndex st; currentIndexRef := currentIndexRef st;
     isUndoRedoRef := v; isInitialLoadRef := isInitialLoadRef st;
     isValidationUpdateRef := isValidationUpdateRef st;
     isDraggingRef := isDraggingRef st;
     dragDebounceTimerRef := dragDebounceTimerRef st;
     localStorage := localStorage st; events := events st |}.

Definition setIsInitialLoadRef v st :=
  {| nodes := nodes st; edges := edges st; labelCounts := labelCounts st;
     isInitialized := isInitialized st; history := history st;
     currentIndex := currentIndex st; currentIndexRef := currentIndexRef st;
     isUndoRedoRef := isUndoRedoRef st; isInitialLoadRef := v;
     isValidationUpdateRef := isValidationUpdateRef st;
     isDraggingRef := isDraggingRef st;
     dragDebounceTimerRef := dragDebounceTimerRef st;
     localStorage := localStorage st; events := events st |}.

Definition setIsValidationUpdateRef v st :=
  {| nodes := nodes st; edges := edges st; labelCounts := labelCounts st;
     isInitialized := isInitialized st; history := history st;
     currentIndex := currentIndex st; currentIndexRef := currentIndexRef st;
     isUndoRedoRef := isUndoRedoRef st; isInitialLoadRef := isInitialLoadRef st;
     isValidationUpdateRef := v;
     isDraggingRef := isDraggingRef st;
     dragDebounceTimerRef := dragDebounceTimerRef st;
     localStorage := localStorage st; events := events st |}.

Definition setIsDraggingRef v st :=
  {| nodes := nodes st; edges := edges st; labelCounts := labelCounts st;
     isInitialized := isInitialized st; history := history st;
     currentIndex := currentIndex st; currentIndexRef := currentIndexRef st;
     isUndoRedoRef := isUndoRedoRef st; isInitialLoadRef := isInitialLoadRef st;
     isValidationUpdateRef := isValidationUpdateRef st;
     isDraggingRef := v;
     dragDebounceTimerRef := dragDebounceTimerRef st;
     localStorage := localStorage st; events := events st |}.

Definition setDragDebounceTimerRef v st :=
  {| nodes := nodes st; edges := edges st; labelCounts := labelCounts st;
     isInitialized := isInitialized st; history := history st;
     currentIndex := currentIndex st; currentIndexRef := currentIndexRef st;
     isUndoRedoRef := isUndoRedoRef st; isInitialLoadRef := isInitialLoadRef st;
     isValidationUpdateRef := isValidationUpdateRef st;
     isDraggingRef := isDraggingRef st;
     dragDebounceTimerRef := v;
     localStorage := localStorage st; events := events st |}.

(** [localStorage.setItem(STORAGE_KEY, JSON.stringify(state))] *)
Definition setItem (s : FunnelState) st :=
  {| nodes := nodes st; edges := edges st; labelCounts := labelCounts st;
     isInitialized := isInitialized st; history := history st;
     currentIndex := currentIndex st; currentIndexRef := currentIndexRef st;
     isUndoRedoRef := isUndoRedoRef st; isInitialLoadRef := isInitialLoadRef st;
     isValidationUpdateRef := isValidationUpdateRef st;
     isDraggingRef := isDraggingRef st;
     dragDebounceTimerRef := dragDebounceTimerRef st;
     localStorage := Some s; events := EvSave s :: events st |}.

Definition emit (e : Event) st :=
  {| nodes := nodes st; edges := edges st; labelCounts := labelCounts st;
     isInitialized := isInitialized st; history := history st;
     currentIndex := currentIndex st; currentIndexRef := currentIndexRef st;
     isUndoRedoRef := isUndoRedoRef st; isInitialLoadRef := isInitialLoadRef st;
     isValidationUpdateRef := isValidationUpdateRef st;
     isDraggingRef := isDraggingRef st;
     dragDebounceTimerRef := dragDebounceTimerRef st;
     localStorage := localStorage st; events := e :: events st |}.

(** The store at the first render, before any effect has run. *)
Definition firstRender : Store :=
  {| nodes := []; edges := []; labelCounts := createLabelCounter;
     isInitialized := false; history := []; currentIndex := -1;
     currentIndexRef := -1; isUndoRedoRef := false; isInitialLoadRef := true;
     isValidationUpdateRef := false; isDraggingRef := false;
     dragDebounceTimerRef := None; localStorage := None; events := [] |}.

Definition canUndo (st : Store) : bool := 0 <? currentIndex st.
Definition canRedo (st : Store) : bool :=
  currentIndex st <? Z.of_nat (List.length (history st)) - 1.

(** ** Effects *)

(** [arr.slice(0, e)] *)
Definition slice0 {A} (e : Z) (l : list A) : list A :=
  if e <? 0 then firstn (List.length l - Z.to_nat (- e)) l
  else firstn (Z.to_nat e) l.

(** [arr[i]], [None] for [undefined]. *)
Definition arrayGet {A} (l : list A) (i : Z) : option A :=
  if i <? 0 then None else nth_error l (Z.to_nat i).

(** The effect on [currentIndex]: keep the ref in sync with the state. *)
Definition effectSyncIndex (st : Store) : Store :=
  setCurrentIndexRef (currentIndex st) st.

(** The body of the updater given to [setHistory] when a snapshot is
    taken: the array it returns and the index it hands to
    [setCurrentIndex].  [ref] is [currentIndexRef.current] when it runs. *)
Definition nextHistoryAndIndex (ref : Z) (prevHistory : list HistoryState)
  (currentState : HistoryState) : list HistoryState * Z :=
  let sliced := slice0 (ref + 1) prevHistory in
  let nextHistory := sliced ++ [currentState] in
  if Nat.ltb MAX_HISTORY_SIZE (List.length nextHistory)
  then (tl nextHistory, Z.of_nat MAX_HISTORY_SIZE - 1)
  else (nextHistory, Z.of_nat (List.length nextHistory) - 1).

Definition pushSnapshot (currentState : HistoryState) (st : Store) : Store :=
  let next := nextHistoryAndIndex (currentIndexRef st) (history st) currentState in
  setCurrentIndex (snd next)
    (setHistory (fst next) (emit (EvSnapshot currentState) st)).

(** The effect on [nodes, edges, isInitialized]: save, then track history. *)
Definition effectPersist (st : Store) : Store :=
  if isInitialized st then
    let state := {| s_nodes := nodes st; s_edges := edges st |} in
    let st := setItem state st in
    if isInitialLoadRef st then
      setCurrentIndex 0 (setHistory [state] (setIsInitialLoadRef false st))
    else if isUndoRedoRef st then
      setIsUndoRedoRef false st
    else if isValidationUpdateRef st then
      setIsValidationUpdateRef false st
    else if isDraggingRef st then
      (* clear the armed timer, arm a new one on the captured state *)
      setDragDebounceTimerRef (Some state) st
    else
      pushSnapshot state st
  else st.

(** The effect on [edges, isInitialized]: recompute the warnings. *)
Definition effectValidate (st : Store) : Store :=
  if negb (isInitialized st) then st
  else
    setNodes (validateNodes (edges st) (nodes st))
      (emit EvValidate (setIsValidationUpdateRef true st)).

(** *** Renders

    [Deps] tells which dependencies differ from the previous render: the
    arrays by identity, [isInitialized] and [currentIndex] by value. *)

Record Deps := {
  nodesChanged : bool;
  edgesChanged : bool;
  initChanged : bool;
  indexChanged : bool
}.

Definition anyChanged (d : Deps) : bool :=
  nodesChanged d || edgesChanged d || initChanged d || indexChanged d.

(** One render followed by its effects in declaration order.  The result
    names the dependencies the effects have changed for the next render:
    the validation effect always hands [setNodes] a fresh array. *)
Definition commit (d : Deps) (st : Store) : Deps * Store :=
  let st1 := if indexChanged d then effectSyncIndex st else st in
  let st2 := if nodesChanged d || edgesChanged d || initChanged d
             then effectPersist st1 else st1 in
  let validates := edgesChanged d || initChanged d in
  let st3 := if validates then effectValidate st2 else st2 in
  ({| nodesChanged := validates && isInitialized st;
      edgesChanged := false;
      initChanged := false;
      indexChanged := negb (currentIndex st3 =? currentIndex st) |},
   st3).

Fixpoint settle (fuel : nat) (d : Deps) (st : Store) : Deps * Store :=
  match fuel with
  | O => (d, st)
  | S fuel' =>
      if anyChanged d
      then let ds := commit d st in settle fuel' (fst ds) (snd ds)
      else (d, st)
  end.

(** Renders until nothing changes; three rounds always suffice
    ([settle_quiescent] below). *)
Definition flush (d : Deps) (st : Store) : Store := snd (settle 3 d st).

(** The renders that follow the writes of a handler which took the store
    from [before] to [after]; [dn] and [de] tell whether [nodes] and [edges]
    received a fresh array. *)
Definition rerender (before : Store) (dn de : bool) (after : Store) : Store :=
  flush {| nodesChanged := dn; edgesChanged := de;
           initChanged := negb (Bool.eqb (isInitialized after) (isInitialized before));
           indexChanged := negb (currentIndex after =? currentIndex before) |}
        after.

(** One run of the validation effect on a store, followed by the renders
    its [setNodes] causes. *)
Definition validationPass (st : Store) : Store :=
  flush {| nodesChanged := isInitialized st; edgesChanged := false;
           initChanged := false; indexChanged := false |}
        (effectValidate st).

(** ** Mount: load from localStorage *)

(** What [localStorage.getItem(STORAGE_KEY)] holds, seen through
    [JSON.parse]. *)
Inductive StoredItem :=
| Absent                    (* null or the empty string *)
| Malformed                 (* JSON.parse throws *)
| Parsed (v : JValue).

Definition loadDefaults (st : Store) : Store :=
  setIsInitialized true (setEdges initialEdges (setNodes initialNodes st)).

(** The mount effect followed by the renders it causes.  The two effects
    declared after it see [isInitialized = false] in the mount commit and do
    nothing.  [None]: the arrays written by the effect are not of the
    declared types. *)
Definition mount (saved : StoredItem) : option Store :=
  let st0 := effectSyncIndex firstRender in
  let after : option Store :=
    match saved with
    | Absent | Malformed => Some (loadDefaults st0)
    | Parsed v =>
        match getProp (Some v) "nodes", getProp (Some v) "edges" with
        | Ok jn, Ok je =>
            if labelLoopCompletes jn then
              ns <- readNodes jn ;;
              es <- readEdges je ;;
              Some (setIsInitialized true
                      (setLabelCounts (reconstructLoad ns)
                         (setEdges es (setNodes ns st0))))
            else Some (loadDefaults st0)
        | _, _ => Some (loadDefaults st0)
        end
    end in
  st <- after ;; Some (rerender st0 true true st).

(** ** Handlers *)

Record Connection := {
  c_source : string;
  c_target : string;
  c_sourceHandle : option string;
  c_targetHandle : option string
}.

(** [{ ...connection, animated: true }] *)
Record EdgeParams := {
  p_connection : Connection;
  p_animated : bool
}.

Inductive NodeChange :=
| PositionChange (nid : string) (pos : option Position) (dragging : option bool)
| DimensionsChange (nid : string)
| SelectChange (nid : string) (selected : bool)
| RemoveChange (nid : string)
| AddChange (item : FunnelNode)
| ReplaceChange (nid : string) (item : FunnelNode).

Inductive EdgeChange :=
| EdgeSelectChange (id_ : string) (selected : bool)
| EdgeRemoveChange (id_ : string)
| EdgeAddChange (item : FunnelEdge)
| EdgeReplaceChange (id_ : string) (item : FunnelEdge).

(** [change.type === 'position' && change.position !== undefined] *)
Definition isPositionChange (c : NodeChange) : bool :=
  match c with
  | PositionChange _ (Some _) _ => true
  | _ => false
  end.

Definition FunnelEdge_eqb (a b : FunnelEdge) : bool :=
  String.eqb (eid a) (eid b) && String.eqb (source a) (source b)
  && String.eqb (target a) (target b)
  && match sourceHandle a, sourceHandle b with
     | Some x, Some y => String.eqb x y | None, None => true | _, _ => false
     end
  && match targetHandle a, targetHandle b with
     | Some x, Some y => String.eqb x y | None, None => true | _, _ => false
     end
  && Bool.eqb (animated a) (animated b).

Fixpoint sameEdges (a b : list FunnelEdge) : bool :=
  match a, b with
  | [], [] => true
  | x :: a', y :: b' => FunnelEdge_eqb x y && sameEdges a' b'
  | _, _ => false
  end.

(** The three ways a call of [importFunnel] can go. *)
Inductive ImportRun :=
| Rejected
    (* an exception before any setter was called; [false] is returned *)
| WroteThenThrew (jn je : option JValue)
    (* setNodes(jn), setEdges(je), setHistory and setCurrentIndex were
       called, then the label loop threw; [false] is returned *)
| Imported (jn je : option JValue).
    (* as above, the label loop ended and setLabelCounts was called;
       [true] is returned *)

(** The control flow of [importFunnel] on the outcome of
    [JSON.parse(json)], [None] when it throws. *)
Definition importRun (parsed : option JValue) : ImportRun :=
  match parsed with
  | None => Rejected
  | Some v =>
      match getProp (Some v) "nodes" with
      | Threw => Rejected
      | Ok jn =>
          if negb (truthy jn) then Rejected
          else
            match getProp (Some v) "edges" with
            | Threw => Rejected
            | Ok je =>
                if negb (truthy je) then Rejected
                else if labelLoopCompletes jn then Imported jn je
                else WroteThenThrew jn je
            end
      end
  end.

Section Handlers.

(** The three functions of the rendering library the store calls.
    [applyNodeChanges] and [applyEdgeChanges] build a new array on every
    call; [addEdge] returns either the array it was given or a different
    one, so comparing contents decides whether React sees a new state. *)
Variable applyNodeChanges : list NodeChange -> list FunnelNode -> list FunnelNode.
Variable applyEdgeChanges : list EdgeChange -> list FunnelEdge -> list FunnelEdge.
Variable addEdge : EdgeParams -> list FunnelEdge -> list FunnelEdge.

Definition onNodesChange (changes : list NodeChange) (st : Store) : Store :=
  let hasPositionChange := existsb isPositionChange changes in
  let st1 := if hasPositionChange then setIsDraggingRef true st
             else setIsDraggingRef false st in
  rerender st true false (setNodes (applyNodeChanges changes (nodes st1)) st1).

Definition onEdgesChange (changes : list EdgeChange) (st : Store) : Store :=
  rerender st false true (setEdges (applyEdgeChanges changes (edges st)) st).

Definition onConnect (connection : Connection) (st : Store) : Store :=
  let sourceNode := find (fun n => String.eqb (id n) (c_source connection)) (nodes st) in
  (* sourceNode?.data.nodeType === 'thankYou' *)
  if match sourceNode with
     | Some n => NodeType_eqb (nodeType (data n)) thankYou
     | None => false
     end
  then st
  else
    let eds := addEdge {| p_connection := connection; p_animated := true |} (edges st) in
    if sameEdges eds (edges st) then st
    else rerender st false true (setEdges eds st).

Definition addNode (t : NodeType) (pos : Position) (now : N) (st : Store) : Store :=
  let newCount := (getCount (labelCounts st) t + 1)%N in
  let newCounts := setCount (labelCounts st) t newCount in
  rerender st true false
    (setLabelCounts newCounts (setNodes (nodes st ++ [newNode t pos now newCount]) st)).

Definition deleteNode (nodeId : string) (st : Store) : Store :=
  rerender st true true
    (setEdges (filter (fun e => negb (String.eqb (source e) nodeId)
                                && negb (String.eqb (target e) nodeId)) (edges st))
       (setNodes (filter (fun n => negb (String.eqb (id n) nodeId)) (nodes st)) st)).

Definition deleteEdge (edgeId : string) (st : Store) : Store :=
  rerender st false true
    (setEdges (filter (fun e => negb (String.eqb (eid e) edgeId)) (edges st)) st).


(** The writes of [importFunnel] up to the label reconstruction. *)
Definition importWrites (ns : list FunnelNode) (es : list FunnelEdge) (st : Store)
  : Store :=
  setCurrentIndex 0
    (setHistory [ {| s_nodes := ns; s_edges := es |} ]
       (setEdges es (setNodes ns st))).

(** [importFunnel(json)] on the outcome of [JSON.parse(json)] ([None]: it
    throws): the returned boolean and the store.  [None] for the store:
    [setNodes] or [setEdges] received a value that is not of the declared
    type. *)
Definition importFunnel (parsed : option JValue) (st : Store)
  : bool * option Store :=
  match importRun parsed with
  | Rejected => (false, Some st)
  | WroteThenThrew jn je =>
      (false,
       ns <- readNodes jn ;;
       es <- readEdges je ;;
       Some (rerender st true true (importWrites ns es st)))
  | Imported jn je =>
      (true,
       ns <- readNodes jn ;;
       es <- readEdges je ;;
       Some (rerender st true true
               (setLabelCounts (reconstructImport ns) (importWrites ns es st))))
  end.

Definition clearFunnel (st : Store) : Store :=
  rerender st true true
    (setCurrentIndex 0
       (setHistory [ {| s_nodes := []; s_edges := [] |} ]
          (setLabelCounts createLabelCounter
             (setEdges [] (setNodes [] st))))).

Definition undo (st : Store) : Store :=
  if currentIndex st <=? 0 then st
  else
    let st1 := setIsUndoRedoRef true st in
    let newIndex := currentIndex st - 1 in
    let st2 := setCurrentIndex newIndex st1 in
    match arrayGet (history st) newIndex with
    | Some previousState =>
        rerender st true true
          (setEdges (s_edges previousState) (setNodes (s_nodes previousState) st2))
    | None => rerender st false false st2
    end.

Definition redo (st : Store) : Store :=
  if Z.of_nat (List.length (history st)) - 1 <=? currentIndex st then st
  else
    let st1 := setIsUndoRedoRef true st in
    let newIndex := currentIndex st + 1 in
    let st2 := setCurrentIndex newIndex st1 in
    match arrayGet (history st) newIndex with
    | Some nextState =>
        rerender st true true
          (setEdges (s_edges nextState) (setNodes (s_nodes nextState) st2))
    | None => rerender st false false st2
    end.

(** The callback of the debounce timer, when one is armed. *)
Definition dragTimerFires (st : Store) : Store :=
  match dragDebounceTimerRef st with
  | None => st
  | Some captured =>
      rerender st false false
        (pushSnapshot captured
           (setDragDebounceTimerRef None (setIsDraggingRef false st)))
  end.

End Handlers.

(** ** The rendering library, for running the store

    The store is parametric in the library functions; to run it on concrete
    inputs they are instantiated with the behaviour the library documents:
    [addEdge] refuses a connection without source or target and one that
    already exists, and otherwise appends an edge whose id is built from the
    connection; the change appliers are the library's [applyChanges]. *)

Definition orEmpty (h : option string) : string :=
  match h with Some s => s | None => "" end.

Definition sameHandle (a b : option string) : bool :=
  match a, b with
  | Some x, Some y => String.eqb x y || (String.eqb x "" && String.eqb y "")
  | Some x, None | None, Some x => String.eqb x ""
  | None, None => true
  end.

Definition getEdgeId (c : Connection) : string :=
  String.append "xy-edge__"
    (String.append (c_source c)
       (String.append (orEmpty (c_sourceHandle c))
          (String.append "-"
             (String.append (c_target c) (orEmpty (c_targetHandle c)))))).

Definition connectionExists (c : Connection) (eds : list FunnelEdge) : bool :=
  existsb (fun el => String.eqb (source el) (c_source c)
                     && String.eqb (target el) (c_target c)
                     && sameHandle (sourceHandle el) (c_sourceHandle c)
                     && sameHandle (targetHandle el) (c_targetHandle c)) eds.

Definition libAddEdge (p : EdgeParams) (eds : list FunnelEdge) : list FunnelEdge :=
  let c := p_connection p in
  if String.eqb (c_source c) "" || String.eqb (c_target c) "" then eds
  else if connectionExists c eds then eds
  else eds ++ [ {| eid := getEdgeId c; source := c_source c; target := c_target c;
                   sourceHandle := c_sourceHandle c;
                   targetHandle := c_targetHandle c;
                   animated := p_animated p |} ].

(** The changes [applyChanges] queues for one element id while it reads
    the change list in order: a removal or a replacement discards what was
    queued for the id and stands alone, an addition is set aside, and any
    other change is appended to the queue of its id. *)
Definition queuedNodeChanges (changes : list NodeChange) (nid : string)
  : list NodeChange :=
  fold_left (fun queued c =>
               match c with
               | AddChange _ => queued
               | RemoveChange i | ReplaceChange i _ =>
                   if String.eqb i nid then [c] else queued
               | PositionChange i _ _ | DimensionsChange i | SelectChange i _ =>
                   if String.eqb i nid then queued ++ [c] else queued
               end) changes [].

(** [applyChange]: of the fields modelled, only the position is written. *)
Definition applyNodeChange (n : FunnelNode) (c : NodeChange) : FunnelNode :=
  match c with
  | PositionChange _ (Some p) _ =>
      {| id := id n; type := type n; position := p; data := data n |}
  | _ => n
  end.

(** An element whose queue starts with a removal is skipped, one whose
    queue starts with a replacement becomes the replacing item, any other
    receives its queued changes in order; added items go to the end. *)
Definition libApplyNodeChanges (changes : list NodeChange) (nds : list FunnelNode)
  : list FunnelNode :=
  flat_map (fun n => match queuedNodeChanges changes (id n) with
                     | [] => [n]
                     | RemoveChange _ :: _ => []
                     | ReplaceChange _ item :: _ => [item]
                     | queued => [fold_left applyNodeChange queued n]
                     end) nds
  ++ flat_map (fun c => match c with AddChange item => [item] | _ => [] end) changes.

Definition queuedEdgeChanges (changes : list EdgeChange) (edgeId : string)
  : list EdgeChange :=
  fold_left (fun queued c =>
               match c with
               | EdgeAddChange _ => queued
               | EdgeRemoveChange i | EdgeReplaceChange i _ =>
                   if String.eqb i edgeId then [c] else queued
               | EdgeSelectChange i _ =>
                   if String.eqb i edgeId then queued ++ [c] else queued
               end) changes [].

(** A selection changes no field of an edge that is modelled. *)
Definition libApplyEdgeChanges (changes : list EdgeChange) (eds : list FunnelEdge)
  : list FunnelEdge :=
  flat_map (fun e => match queuedEdgeChanges changes (eid e) with
                     | EdgeRemoveChange _ :: _ => []
                     | EdgeReplaceChange _ item :: _ => [item]
                     | _ => [e]
                     end) eds
  ++ flat_map (fun c => match c with EdgeAddChange item => [item] | _ => [] end) changes.

(** ** User actions *)

(** The mutations a user can perform through the canvas and the toolbar.
    [MDrag] is a whole drag gesture: one call of [onNodesChange] per
    pointer move, then the debounce timer firing after the last one. *)
Inductive Mutation :=
| MAddNode (t : NodeType) (pos : Position) (now : N)
| MDeleteNode (nodeId : string)
| MDeleteEdge (edgeId : string)
| MConnect (connection : Connection)
| MNodesChange (changes : list NodeChange)
| MDrag (moves : list (list NodeChange))
| MEdgesChange (changes : list EdgeChange)
| MImport (parsed : option JValue)
| MClear.

(** A mutation that does not go through the drag path. *)
Definition nonDrag (m : Mutation) : bool :=
  match m with
  | MNodesChange changes => negb (existsb isPositionChange changes)
  | MDrag _ => false
  | _ => true
  end.

(** A mutation that leaves no debounce timer pending: any mutation outside
    the drag path, or a drag gesture all of whose calls carry a position
    change. *)
Definition settles (m : Mutation) : bool :=
  match m with
  | MNodesChange changes => negb (existsb isPositionChange changes)
  | MDrag moves => forallb (existsb isPositionChange) moves
  | _ => true
  end.

Section Run.

Variable applyNodeChanges : list NodeChange -> list FunnelNode -> list FunnelNode.
Variable applyEdgeChanges : list EdgeChange -> list FunnelEdge -> list FunnelEdge.
Variable addEdge : EdgeParams -> list FunnelEdge -> list FunnelEdge.

(** One mutation, settled.  [None]: an import left values in the store
    that are not of the declared types. *)
Definition mutate (m : Mutation) (st : Store) : option Store :=
  match m with
  | MAddNode t pos now => Some (addNode t pos now st)
  | MDeleteNode nodeId => Some (deleteNode nodeId st)
  | MDeleteEdge edgeId => Some (deleteEdge edgeId st)
  | MConnect connection => Some (onConnect addEdge connection st)
  | MNodesChange changes => Some (onNodesChange applyNodeChanges changes st)
  | MDrag moves =>
      Some (dragTimerFires
              (fold_left (fun s changes => onNodesChange applyNodeChanges changes s)
                 moves st))
  | MEdgesChange changes => Some (onEdgesChange applyEdgeChanges changes st)
  | MImport parsed => snd (importFunnel parsed st)
  | MClear => Some (clearFunnel st)
  end.

Fixpoint mutateAll (ms : list Mutation) (st : Store) : option Store :=
  match ms with
  | [] => Some st
  | m :: rest => st' <- mutate m st ;; mutateAll rest st'
  end.

(** Mount, then the mutations in order. *)
Definition session (saved : StoredItem) (ms : list Mutation) : option Store :=
  st <- mount saved ;; mutateAll ms st.

End Run.

Definition libSession := session libApplyNodeChanges libApplyEdgeChanges libAddEdge.

(** ** The validation panel: getValidationErrors *)

Definition isOrphan (eds : list FunnelEdge) (node : FunnelNode) : bool :=
  if NodeType_eqb (nodeType (data node)) salesPage then false
  else negb (existsb (fun e => String.eqb (target e) (id node)) eds).

Definition orphanMessage (count : nat) : string :=
  String.append (numberToString (N.of_nat count))
                " orphan node(s) not connected to funnel".

Definition noOutgoingMessage (sp : FunnelNode) : string :=
  String.append (label (data sp)) " has no outgoing connection".

(** The messages are pushed in this order: orphans, missing thankYou page,
    then one line per sales page without an outgoing edge. *)
Definition getValidationErrors (st : Store) : list string :=
  let orphanNodes := filter (isOrphan (edges st)) (nodes st) in
  let errors :=
    if Nat.ltb 0 (List.length orphanNodes)
    then [orphanMessage (List.length orphanNodes)] else [] in
  let hasThankYou :=
    existsb (fun n => NodeType_eqb (nodeType (data n)) thankYou) (nodes st) in
  let errors :=
    if negb hasThankYou && Nat.ltb 0 (List.length (nodes st))
    then errors ++ ["No Thank You page in funnel"] else errors in
  let salesPages :=
    filter (fun n => NodeType_eqb (nodeType (data n)) salesPage) (nodes st) in
  errors
  ++ flat_map (fun sp =>
                 if Nat.eqb (List.length (filter (fun e => String.eqb (source e) (id sp))
                                            (edges st))) 0
                 then [noOutgoingMessage sp] else [])
       salesPages.

(** ** What JSON.stringify writes

    [JSON.stringify] is a built-in; a state is modelled by the document
    [JSON.parse] reads back from its output.  Fields that are [undefined]
    are not written. *)








(** ** Sessions with undo and redo *)

Inductive Action :=
| Mutate (m : Mutation)
| Undo
| Redo.

Section Act.

Variable applyNodeChanges : list NodeChange -> list FunnelNode -> list FunnelNode.
Variable applyEdgeChanges : list EdgeChange -> list FunnelEdge -> list FunnelEdge.
Variable addEdge : EdgeParams -> list FunnelEdge -> list FunnelEdge.

Definition act (a : Action) (st : Store) : option Store :=
  match a with
  | Mutate m => mutate applyNodeChanges applyEdgeChanges addEdge m st
  | Undo => Some (undo st)
  | Redo => Some (redo st)
  end.

Fixpoint actAll (acts : list Action) (st : Store) : option Store :=
  match acts with
  | [] => Some st
  | a :: rest => st' <- act a st ;; actAll rest st'
  end.

(** Mount, then the actions in order. *)
Definition play (saved : StoredItem) (acts : list Action) : option Store :=
  st <- mount saved ;; actAll acts st.

End Act.

Definition settlesAction (a : Action) : bool :=
  match a with Mutate m => settles m | _ => true end.

(** * Statements

    Definitions used to state the properties: the rules in the words of
    the specification, the shapes a store at rest takes after a handler,
    the invariants, and the concrete inputs the store is run on. *)

(** ** Rules *)

(** The rules of the validation pass in the words of the specification:
    the warning of a node from its kind and its numbers of outgoing and
    incoming edges. *)
Definition specWarning (kind : NodeType) (outgoing incoming : nat) : bool * string :=
  match kind with
  | salesPage =>
      match outgoing with
      | O => (true, "Sales page should connect to an Order page")
      | S O => (false, "")
      | S (S _) => (true, "Sales page should have only one outgoing connection")
      end
  | _ =>
      match incoming with
      | O => (true, "This node is not connected to the funnel")
      | S _ => (false, "")
      end
  end.

(** The numbers of edges that leave and that reach a node id. *)
Definition outDegree (es : list FunnelEdge) (nid : string) : nat :=
  count_occ string_dec (map source es) nid.

Definition inDegree (es : list FunnelEdge) (nid : string) : nat :=
  count_occ string_dec (map target es) nid.


(** A string made of decimal digits only. *)
Fixpoint allDigits (s : string) : bool :=
  match s with
  | EmptyString => true
  | String c rest => isDigit c && allDigits rest
  end.

(** ** Stores at rest *)

(** A store at rest after initialization: no flag is pending and the index
    ref agrees with the index. *)
Definition settled (st : Store) : Prop :=
  isInitialized st = true /\ isInitialLoadRef st = false /\
  isUndoRedoRef st = false /\ isValidationUpdateRef st = false /\
  currentIndexRef st = currentIndex st.

(** A user write.  The store after the renders that follow a write of
    fresh arrays by a
    handler, when no flag is pending and no drag is under way: the state as
    written is saved and pushed on the history; if [edges] changed the
    validation pass then rewrites the nodes, and that rewrite is saved but
    not pushed. *)
Definition afterWrite (de : bool) (w : Store) : Store :=
  let cur := {| s_nodes := nodes w; s_edges := edges w |} in
  let next := nextHistoryAndIndex (currentIndex w) (history w) cur in
  let nds := if de then validateNodes (edges w) (nodes w) else nodes w in
  {| nodes := nds; edges := edges w; labelCounts := labelCounts w;
     isInitialized := true; history := fst next; currentIndex := snd next;
     currentIndexRef := snd next; isUndoRedoRef := false;
     isInitialLoadRef := false; isValidationUpdateRef := false;
     isDraggingRef := false; dragDebounceTimerRef := dragDebounceTimerRef w;
     localStorage := Some {| s_nodes := nds; s_edges := edges w |};
     events := (if de
                then [EvSave {| s_nodes := nds; s_edges := edges w |}; EvValidate]
                else [])
               ++ EvSnapshot cur :: EvSave cur :: events w |}.

(** A replay.
    The store after the renders that follow the writes of [undo] or [redo]:
    the restored arrays are saved, nothing is pushed, and the validation
    pass runs on them because [edges] is a fresh array. *)
Definition afterReplay (w : Store) : Store :=
  let cur := {| s_nodes := nodes w; s_edges := edges w |} in
  let nds := validateNodes (edges w) (nodes w) in
  {| nodes := nds; edges := edges w; labelCounts := labelCounts w;
     isInitialized := true; history := history w; currentIndex := currentIndex w;
     currentIndexRef := currentIndex w; isUndoRedoRef := false;
     isInitialLoadRef := false; isValidationUpdateRef := false;
     isDraggingRef := isDraggingRef w;
     dragDebounceTimerRef := dragDebounceTimerRef w;
     localStorage := Some {| s_nodes := nds; s_edges := edges w |};
     events := EvSave {| s_nodes := nds; s_edges := edges w |}
               :: EvValidate :: EvSave cur :: events w |}.

(** The first renders.
    The store after the renders that follow the mount effect: the loaded
    state is saved and becomes the only history entry, then it is
    validated. *)
Definition afterMount (w : Store) : Store :=
  let cur := {| s_nodes := nodes w; s_edges := edges w |} in
  let nds := validateNodes (edges w) (nodes w) in
  {| nodes := nds; edges := edges w; labelCounts := labelCounts w;
     isInitialized := true; history := [cur]; currentIndex := 0;
     currentIndexRef := 0; isUndoRedoRef := false;
     isInitialLoadRef := false; isValidationUpdateRef := false;
     isDraggingRef := isDraggingRef w;
     dragDebounceTimerRef := dragDebounceTimerRef w;
     localStorage := Some {| s_nodes := nds; s_edges := edges w |};
     events := EvSave {| s_nodes := nds; s_edges := edges w |}
               :: EvValidate :: EvSave cur :: events w |}.

(** A pointer move of a drag.  The store after the renders that follow a
    write of [nodes] while [isDraggingRef] is set: the state is saved and
    captured by a newly armed timer, nothing is pushed. *)
Definition afterDragMove (w : Store) : Store :=
  let cur := {| s_nodes := nodes w; s_edges := edges w |} in
  {| nodes := nodes w; edges := edges w; labelCounts := labelCounts w;
     isInitialized := true; history := history w; currentIndex := currentIndex w;
     currentIndexRef := currentIndex w; isUndoRedoRef := false;
     isInitialLoadRef := false; isValidationUpdateRef := false;
     isDraggingRef := true; dragDebounceTimerRef := Some cur;
     localStorage := Some cur; events := EvSave cur :: events w |}.

(** The end of a drag.  The store after the timer armed on [captured] has
    fired and the renders that follow. *)
Definition afterTimer (captured : HistoryState) (st : Store) : Store :=
  let next := nextHistoryAndIndex (currentIndex st) (history st) captured in
  {| nodes := nodes st; edges := edges st; labelCounts := labelCounts st;
     isInitialized := true; history := fst next; currentIndex := snd next;
     currentIndexRef := snd next; isUndoRedoRef := false;
     isInitialLoadRef := false; isValidationUpdateRef := false;
     isDraggingRef := false; dragDebounceTimerRef := None;
     localStorage := localStorage st;
     events := EvSnapshot captured :: events st |}.

(** The store after mounting with empty storage. *)
Definition defaultStore : Store :=
  afterMount (loadDefaults (effectSyncIndex firstRender)).

(** ** Invariants *)

(** A store at rest between two user actions, outside a drag: nothing is
    pending, the history is within its cap and the index is inside it. *)
Record Inv (st : Store) : Prop := {
  inv_settled : settled st;
  inv_idle : isDraggingRef st = false;
  inv_timer : dragDebounceTimerRef st = None;
  inv_len : (List.length (history st) <= MAX_HISTORY_SIZE)%nat;
  inv_idx : 0 <= currentIndex st < Z.of_nat (List.length (history st))
}.

(** The index points at the latest entry. *)
Definition atLatest (st : Store) : Prop :=
  currentIndex st = Z.of_nat (List.length (history st)) - 1.

(** The current history entry holds the edges of the store and its nodes,
    either as they are or as they were before the validation pass rewrote
    them. *)
Definition tracksEntry (st : Store) : Prop :=
  exists entry,
    arrayGet (history st) (currentIndex st) = Some entry /\
    edges st = s_edges entry /\
    (nodes st = validateNodes (edges st) (s_nodes entry)
     \/ (nodes st = s_nodes entry /\ 1 <= currentIndex st)).

(** What every mutation that settles re-establishes. *)
Definition Good (st : Store) : Prop := Inv st /\ atLatest st /\ tracksEntry st.

(** A store in the middle of a drag: at rest but for the armed timer, which
    has captured the nodes and edges of the store. *)
Definition Dragging (st : Store) : Prop :=
  settled st /\ isDraggingRef st = true /\
  dragDebounceTimerRef st = Some {| s_nodes := nodes st; s_edges := edges st |} /\
  (List.length (history st) <= MAX_HISTORY_SIZE)%nat /\
  0 <= currentIndex st < Z.of_nat (List.length (history st)).


(** ** Inputs *)

(** Sixty clicks on the sales page of the default funnel: each one is a
    selection change, which rewrites [nodes]. *)
Definition sixtyClicks : list Mutation :=
  repeat (MNodesChange [SelectChange "sales-1" true]) 60.



(** A connection drawn from the thankYou node of the default funnel. *)
Definition fromThankYou : Connection :=
  {| c_source := "thankyou-1"; c_target := "sales-1";
     c_sourceHandle := None; c_targetHandle := None |}.


(** The JSON of a node and of a funnel file, as [exportFunnel] writes
    them. *)
Definition jNode (i l k b : string) : JValue :=
  JObj [ ("id", JStr i); ("type", JStr "funnelNode");
         ("position", JObj [("x", JNum 120); ("y", JNum 80)]);
         ("data", JObj [("label", JStr l); ("nodeType", JStr k);
                        ("buttonLabel", JStr b)]) ].

Definition jFunnel (nds eds : list JValue) : JValue :=
  JObj [ ("nodes", JArr nds); ("edges", JArr eds) ].

(** A funnel file in which a sales page and a thankYou page carry the same
    id, and a connection drawn from that id. *)
Definition twinIds : JValue :=
  jFunnel [ jNode "a" "Sales Page" "salesPage" "Buy Now";
            jNode "a" "Thank You" "thankYou" "Continue";
            jNode "b" "Order Page" "orderPage" "Complete Order" ] [].

Definition fromTwin : Connection :=
  {| c_source := "a"; c_target := "b";
     c_sourceHandle := None; c_targetHandle := None |}.

(** A funnel file with a single sales page. *)
Definition oneSalesPage : JValue :=
  jFunnel [jNode "sales-9" "Sales Page" "salesPage" "Buy Now"] [].

(** A funnel file whose only node has no [data]. *)
Definition nodeWithoutData : JValue :=
  jFunnel [ JObj [ ("id", JStr "n1"); ("type", JStr "funnelNode");
                   ("position", JObj [("x", JNum 120); ("y", JNum 80)]) ] ] [].

(** A funnel file with one upsell node whose label carries no number. *)
Definition unnumberedUpsell : JValue :=
  jFunnel [jNode "upsell-7" "Special offer" "upsell" "Yes, Add This!"] [].

(** ** The panel read off the nodes *)

(** The lines of the validation panel computed from the warning fields the
    nodes carry, without looking at the edges. *)
Definition flaggedOrphan (n : FunnelNode) : bool :=
  negb (NodeType_eqb (nodeType (data n)) salesPage)
  && opt_bool_eqb (hasWarning (data n)) true.

Definition flaggedNoOrder (n : FunnelNode) : bool :=
  NodeType_eqb (nodeType (data n)) salesPage
  && opt_string_eqb (warningMessage (data n)) msgSalesNoOrder.

Definition errorsFromWarnings (nds : list FunnelNode) : list string :=
  let count := List.length (filter flaggedOrphan nds) in
  (if Nat.ltb 0 count then [orphanMessage count] else [])
  ++ (if negb (existsb (fun n => NodeType_eqb (nodeType (data n)) thankYou) nds)
         && Nat.ltb 0 (List.length nds)
      then ["No Thank You page in funnel"] else [])
  ++ flat_map (fun n => if flaggedNoOrder n then [noOutgoingMessage n] else []) nds.

(** ** Label counters in closed form *)

(** The numbers that end the labels of the nodes of a kind, and whether
    some node of the kind has a label that ends in no number. *)
Definition suffixesOf (t : NodeType) (nds : list FunnelNode) : list N :=
  flat_map (fun n => if NodeType_eqb (nodeType (data n)) t
                     then match labelSuffix (label (data n)) with
                          | Some k => [k]
                          | None => []
                          end
                     else []) nds.

Definition hasUnnumbered (t : NodeType) (nds : list FunnelNode) : bool :=
  existsb (fun n => NodeType_eqb (nodeType (data n)) t
                    && match labelSuffix (label (data n)) with
                       | Some _ => false
                       | None => true
                       end) nds.

Definition maxOf (l : list N) : N := fold_right N.max 0%N l.

(** Whether [addNode] numbers the label it allocates. *)
Definition isNumbered (t : NodeType) (newCount : N) : bool :=
  NodeType_eqb t upsell || NodeType_eqb t downsell || (1 <? newCount)%N.

(** ** Sessions *)

(** A mutation that writes to the history only through the snapshot of the
    save effect: every one but [importFunnel] and [clearFunnel], which
    replace the history. *)
Definition keepsHistory (m : Mutation) : bool :=
  match m with
  | MImport _ | MClear => false
  | _ => true
  end.

(** What [localStorage] holds is what the store shows. *)
Definition Persisted (st : Store) : Prop :=
  localStorage st = Some {| s_nodes := nodes st; s_edges := edges st |}.

(** A store in the middle of a drag that started from [st0]: nothing but
    the nodes has moved, and every move has been saved. *)
Definition MidDrag (st0 st : Store) : Prop :=
  Dragging st /\ history st = history st0 /\ currentIndex st = currentIndex st0 /\
  edges st = edges st0 /\ labelCounts st = labelCounts st0 /\ Persisted st.

(** A store at rest that shows the entry the index points at. *)
Definition Tracked (st : Store) : Prop := Inv st /\ tracksEntry st /\ Persisted st.

(** The store run with the library functions of the rendering library. *)
Definition libPlay := play libApplyNodeChanges libApplyEdgeChanges libAddEdge.

(** A session with an undo in the middle: a node is added, the addition is
    undone, an edge is deleted, and redo is asked for. *)
Definition addUndoDeleteRedo : list Action :=
  [ Mutate (MAddNode upsell {| px := 400; py := 300 |} 1700000000000);
    Undo;
    Mutate (MDeleteEdge "e-sales-order");
    Redo ].

(** A pointer move of the order page. *)
Definition moveOrder (x y : Z) : list NodeChange :=
  [PositionChange "order-1" (Some {| px := x; py := y |}) (Some true)].

(** ** Loading *)

(** Whether the load effect ends in its [catch] block or finds nothing to
    parse: nothing stored, text that does not parse, a value that has no
    properties, or a [nodes] on which the label loop throws. *)
Definition loadFails (saved : StoredItem) : bool :=
  match saved with
  | Absent | Malformed => true
  | Parsed v =>
      match getProp (Some v) "nodes", getProp (Some v) "edges" with
      | Ok jn, Ok _ => negb (labelLoopCompletes jn)
      | _, _ => true
      end
  end.

(** ** Edges and the nodes they join *)

(** Every edge starts and ends at a node of the funnel. *)
Definition edgesClosed (nds : list FunnelNode) (eds : list FunnelEdge) : Prop :=
  forall e, In e eds -> In (source e) (map id nds) /\ In (target e) (map id nds).

(** The funnel without a node and without the edges that touch it. *)
Definition withoutNode (nodeId : string) (s : FunnelState) : FunnelState :=
  {| s_nodes := filter (fun n => negb (String.eqb (id n) nodeId)) (s_nodes s);
     s_edges := filter (fun e => negb (String.eqb (source e) nodeId)
                                 && negb (String.eqb (target e) nodeId)) (s_edges s) |}.

(** The empty funnel. *)
Definition emptyFunnel : FunnelState := {| s_nodes := []; s_edges := [] |}.

(** ** Labels in a session *)





(** The change lists an action hands to [applyNodeChanges]. *)
Definition nodeChangesOf (a : Action) : list (list NodeChange) :=
  match a with
  | Mutate (MNodesChange changes) => [changes]
  | Mutate (MDrag moves) => moves
  | _ => []
  end.

(** The changes the canvas emits for moving, measuring, selecting and
    removing nodes. *)
Definition movesSelectsRemoves (c : NodeChange) : bool :=
  match c with
  | AddChange _ | ReplaceChange _ _ => false
  | _ => true
  end.


(** ** Handles *)

(** Whether the node [onConnect] finds for the source is of a kind whose
    configuration gives it no source handle (FunnelNode renders the handle
    only when [canHaveOutgoing] is set). *)
Definition sourceHasNoHandle (connection : Connection) (st : Store) : bool :=
  match find (fun n => String.eqb (id n) (c_source connection)) (nodes st) with
  | Some n => negb (canHaveOutgoing (NODE_TYPE_CONFIG (nodeType (data n))))
  | None => false
  end.

(** ** A timer left pending *)

(** The default funnel in the middle of a drag of the order page: one
    pointer move has been made and the debounce timer is armed. *)
Definition midDrag : Store :=
  onNodesChange libApplyNodeChanges (moveOrder 300 300) defaultStore.

(** ** Warnings on the canvas *)

(** The warning fields of a node are those the rules give for the edges,
    or the node has none yet. *)
Definition warningCurrent (eds : list FunnelEdge) (n : FunnelNode) : Prop :=
  (hasWarning (data n) = Some (fst (computeWarning eds n)) /\
   warningMessage (data n) = Some (snd (computeWarning eds n)))
  \/ (hasWarning (data n) = None /\ warningMessage (data n) = None).

Definition WarningsCurrent (st : Store) : Prop :=
  forall n, In n (nodes st) -> warningCurrent (edges st) n.

(** A change of the node array that rewrites neither ids nor data: every
    node of the result has the id and the data of a node that was there. *)
Definition keepsData (f : list FunnelNode -> list FunnelNode) : Prop :=
  forall nds n, In n (f nds) ->
                exists n0, In n0 nds /\ id n = id n0 /\ data n = data n0.

(** An edge is deleted, the order page is dragged, and a node is dropped
    on the canvas. *)
Definition deleteThenAdd : list Action :=
  [ Mutate (MDeleteEdge "e-sales-order");
    Mutate (MDrag [moveOrder 300 300; moveOrder 380 310]);
    Mutate (MAddNode upsell {| px := 400; py := 300 |} 1700000000000) ].

(** ** Numbers

    Counters, label numbers and [Date.now()] are natural numbers in the
    model.  JavaScript holds them in doubles and computes with them exactly
    as long as they are safe integers: up to this bound a number is printed
    with all its digits, read back digit for digit, and grows by one when
    one is added. *)
Definition MAX_SAFE_INTEGER : N := 9007199254740991.


(** Every number that ends a label is a safe integer. *)
Definition safeLabels (nds : list FunnelNode) : Prop :=
  forall n k, In n nds -> labelSuffix (label (data n)) = Some k ->
              (k <= MAX_SAFE_INTEGER)%N.

(** Three upsell nodes: two numbered, one with a label of its own. *)
Definition threeUpsells : list FunnelNode :=
  [ mkNode "u1" 0 0 "Upsell 2" upsell "Yes, Add This!";
    mkNode "u2" 0 0 "Special offer" upsell "Yes, Add This!";
    mkNode "u3" 0 0 "Upsell 7" upsell "Yes, Add This!" ].

(** ** Between two handler calls *)

(** A store whose renders have completed: no flag is pending, the history
    is within its cap and the index is inside it.  Whether a drag is under
    way ([isDraggingRef]) and whether a debounce timer is armed is left
    open. *)
Definition Quiet (st : Store) : Prop :=
  settled st /\ (List.length (history st) <= MAX_HISTORY_SIZE)%nat /\
  0 <= currentIndex st < Z.of_nat (List.length (history st)).

(** ** Writes in the middle of a drag *)

(** The store after the renders that follow a write of [edges] while
    [isDraggingRef] is set: the state as written is saved and captured by a
    newly armed timer, nothing is pushed, and the validation pass rewrites
    the nodes, which are saved again. *)
Definition afterDragEdges (w : Store) : Store :=
  let cur := {| s_nodes := nodes w; s_edges := edges w |} in
  let nds := validateNodes (edges w) (nodes w) in
  {| nodes := nds; edges := edges w; labelCounts := labelCounts w;
     isInitialized := true; history := history w; currentIndex := currentIndex w;
     currentIndexRef := currentIndex w; isUndoRedoRef := false;
     isInitialLoadRef := false; isValidationUpdateRef := false;
     isDraggingRef := true; dragDebounceTimerRef := Some cur;
     localStorage := Some {| s_nodes := nds; s_edges := edges w |};
     events := EvSave {| s_nodes := nds; s_edges := edges w |}
               :: EvValidate :: EvSave cur :: events w |}.

(** * Properties *)

Lemma NodeType_eqb_eq a b : NodeType_eqb a b = true <-> a = b.
Proof. destruct a, b; simpl; split; intro H; congruence. Qed.

(** ** Validation *)

Lemma length_filter_count {A} (f : A -> string) (l : list A) (k : string) :
  List.length (filter (fun e => String.eqb (f e) k) l)
  = count_occ string_dec (map f l) k.
Proof.
  induction l as [|a l IH]; simpl; [reflexivity|].
  destruct (String.eqb_spec (f a) k) as [E|E];
    destruct (string_dec (f a) k) as [E'|E']; try contradiction; simpl;
    now rewrite IH.
Qed.

Lemma computeWarning_spec es n :
  computeWarning es n
  = specWarning (nodeType (data n)) (outDegree es (id n)) (inDegree es (id n)).
Proof.
  unfold computeWarning, outgoingEdges, incomingEdges, outDegree, inDegree.
  rewrite !length_filter_count.
  destruct (nodeType (data n)); simpl;
    try (destruct (count_occ string_dec (map target es) (id n)); reflexivity).
  destruct (count_occ string_dec (map source es) (id n)) as [|[|k]]; reflexivity.
Qed.

Lemma opt_bool_eqb_true a b : opt_bool_eqb a b = true -> a = Some b.
Proof.
  destruct a as [x|]; simpl; [|discriminate].
  intro H. apply Bool.eqb_prop in H. now subst.
Qed.

Lemma opt_string_eqb_true a b : opt_string_eqb a b = true -> a = Some b.
Proof.
  destruct a as [x|]; simpl; [|discriminate].
  intro H. apply String.eqb_eq in H. now subst.
Qed.

Lemma warningDiffers_false n w :
  warningDiffers n w = false ->
  hasWarning (data n) = Some (fst w) /\ warningMessage (data n) = Some (snd w).
Proof.
  unfold warningDiffers. intro H.
  apply Bool.orb_false_iff in H. destruct H as [H1 H2].
  apply Bool.negb_false_iff in H1, H2.
  split; [now apply opt_bool_eqb_true | now apply opt_string_eqb_true].
Qed.

Lemma warningDiffers_withWarning n w : warningDiffers (withWarning n w) w = false.
Proof.
  unfold warningDiffers, withWarning; simpl.
  now rewrite Bool.eqb_reflx, String.eqb_refl.
Qed.

Lemma computeWarning_withWarning es n w :
  computeWarning es (withWarning n w) = computeWarning es n.
Proof. reflexivity. Qed.

(** As a value, the outcome of the callback is always the node with the
    computed warning written into it. *)
Lemma validateNode_value es n :
  validateNode es n = withWarning n (computeWarning es n).
Proof.
  unfold validateNode, validateNodeReturn.
  destruct (warningDiffers n (computeWarning es n)) eqn:D; [reflexivity|].
  apply warningDiffers_false in D. destruct D as [D1 D2].
  destruct n as [i ty p [l k b hw wm]]; simpl in *.
  unfold withWarning; simpl. now rewrite D1, D2.
Qed.

Lemma validateNode_settled es n :
  warningDiffers (validateNode es n) (computeWarning es (validateNode es n)) = false.
Proof.
  rewrite validateNode_value, computeWarning_withWarning.
  apply warningDiffers_withWarning.
Qed.

Lemma validateNode_idem es n : validateNode es (validateNode es n) = validateNode es n.
Proof.
  unfold validateNode at 1, validateNodeReturn. now rewrite validateNode_settled.
Qed.

Lemma validateNodes_idem es nds :
  validateNodes es (validateNodes es nds) = validateNodes es nds.
Proof.
  unfold validateNodes. rewrite map_map.
  apply map_ext. intro n. apply validateNode_idem.
Qed.

(** C5.  The validation pass leaves in every node exactly the warning the
    rules prescribe: [hasWarning] is set and [warningMessage] is the text of
    the rule for a sales page with no outgoing edge, for a sales page with
    more than one, and for any other node with no incoming edge;
    [hasWarning] is false and the message empty for a sales page with one
    outgoing edge and for any other node with an incoming edge.  The nodes
    keep their order and every other field. *)
Theorem validation_follows_rules (es : list FunnelEdge) (nds : list FunnelNode) :
  Forall2
    (fun n v =>
       hasWarning (data v)
       = Some (fst (specWarning (nodeType (data n))
                      (outDegree es (id n)) (inDegree es (id n)))) /\
       warningMessage (data v)
       = Some (snd (specWarning (nodeType (data n))
                      (outDegree es (id n)) (inDegree es (id n)))) /\
       id v = id n /\ type v = type n /\ position v = position n /\
       label (data v) = label (data n) /\ nodeType (data v) = nodeType (data n) /\
       buttonLabel (data v) = buttonLabel (data n))
    nds (validateNodes es nds).
Proof.
  induction nds as [|n nds IH]; cbn [validateNodes map]; constructor; [|exact IH].
  rewrite validateNode_value, computeWarning_spec. repeat split.
Qed.

(** ** Renders settle *)

Lemma settle_S n d st :
  settle (S n) d st
  = if anyChanged d then settle n (fst (commit d st)) (snd (commit d st)) else (d, st).
Proof. reflexivity. Qed.

Lemma settle_step n d st d' st' :
  anyChanged d = true -> commit d st = (d', st') ->
  settle (S n) d st = settle n d' st'.
Proof. intros A C. rewrite settle_S, A, C. reflexivity. Qed.

Lemma settle_done n d st : anyChanged d = false -> settle n d st = (d, st).
Proof. intro A. destruct n; [reflexivity|]. now rewrite settle_S, A. Qed.

Lemma commit_deps d st :
  edgesChanged (fst (commit d st)) = false /\ initChanged (fst (commit d st)) = false
  /\ (edgesChanged d = false -> initChanged d = false ->
      nodesChanged (fst (commit d st)) = false).
Proof.
  unfold commit; simpl. repeat split. intros -> ->. reflexivity.
Qed.

Lemma commit_index_unchanged d st :
  nodesChanged d = false -> edgesChanged d = false -> initChanged d = false ->
  anyChanged (fst (commit d st)) = false.
Proof.
  destruct d as [dn de di dx]; simpl. intros -> -> ->.
  unfold commit; simpl. destruct dx; simpl; now rewrite Z.eqb_refl.
Qed.

(** The renders caused by a write always come to rest within the three
    rounds [flush] allows: the first may validate, the second runs the save
    effect on the validated nodes, the third only syncs the index ref. *)
Lemma settle_quiescent d st : anyChanged (fst (settle 3 d st)) = false.
Proof.
  rewrite settle_S. destruct (anyChanged d) eqn:A; [|exact A].
  destruct (commit_deps d st) as (E1 & I1 & _).
  rewrite settle_S. destruct (anyChanged (fst (commit d st))) eqn:A1; [|exact A1].
  destruct (commit_deps (fst (commit d st)) (snd (commit d st))) as (E2 & I2 & N2).
  specialize (N2 E1 I1).
  rewrite settle_S.
  destruct (anyChanged (fst (commit (fst (commit d st)) (snd (commit d st))))) eqn:A2;
    [|exact A2].
  change (settle 0 ?x ?y) with (x, y). cbn [fst].
  now apply commit_index_unchanged.
Qed.

Ltac store_eval :=
  cbv [commit anyChanged
       effectPersist effectValidate effectSyncIndex pushSnapshot
       setNodes setEdges setLabelCounts setIsInitialized setHistory
       setCurrentIndex setCurrentIndexRef setIsUndoRedoRef setIsInitialLoadRef
       setIsValidationUpdateRef setIsDraggingRef setDragDebounceTimerRef
       setItem emit
       nodes edges labelCounts isInitialized history currentIndex
       currentIndexRef isUndoRedoRef isInitialLoadRef isValidationUpdateRef
       isDraggingRef dragDebounceTimerRef localStorage events
       nodesChanged edgesChanged initChanged indexChanged
       orb andb negb Bool.eqb app].

(** Case analysis on the first index comparison left in the goal. *)
Ltac split_index_test :=
  match goal with
  | |- context [ Z.eqb ?a ?b ] =>
      let E := fresh "E" in
      destruct (Z.eqb a b) eqn:E;
      [apply Z.eqb_eq in E | apply Z.eqb_neq in E]
  end.

(** Run the renders of [settle] one at a time. *)
Ltac run_renders :=
  repeat first
    [ progress (rewrite Z.eqb_refl)
    | split_index_test
    | rewrite settle_done by (store_eval; exact eq_refl)
    | erewrite settle_step;
      [ | store_eval; exact eq_refl | store_eval; exact eq_refl ] ];
  cbn [snd]; store_eval.

Ltac open_store w :=
  let n := fresh "n" in let e := fresh "e" in let lc := fresh "lc" in
  let ini := fresh "ini" in let h := fresh "h" in let ci := fresh "ci" in
  let cir := fresh "cir" in let ur := fresh "ur" in let il := fresh "il" in
  let vu := fresh "vu" in let dr := fresh "dr" in let tm := fresh "tm" in
  let ls := fresh "ls" in let ev := fresh "ev" in
  destruct w as [n e lc ini h ci cir ur il vu dr tm ls ev];
  cbv [settled isInitialized isInitialLoadRef isUndoRedoRef isValidationUpdateRef
       isDraggingRef currentIndexRef currentIndex] in *.

Lemma rerender_write before w dn de :
  isInitialized before = true ->
  isInitialized w = true -> isInitialLoadRef w = false ->
  isUndoRedoRef w = false -> isValidationUpdateRef w = false ->
  isDraggingRef w = false ->
  currentIndexRef w = currentIndex before ->
  dn || de = true ->
  rerender before dn de w = afterWrite de w.
Proof.
  intros Hb Hi Hl Hu Hv Hd Hr Hc.
  open_store w; subst. open_store before; subst.
  unfold afterWrite, rerender, flush.
  cbv [isInitialized currentIndex Bool.eqb negb].
  destruct dn, de; try discriminate Hc; run_renders;
    try reflexivity; f_equal; congruence.
Qed.

Lemma rerender_replay before w :
  isInitialized before = true ->
  isInitialized w = true -> isInitialLoadRef w = false ->
  isUndoRedoRef w = true -> isValidationUpdateRef w = false ->
  currentIndex w <> currentIndex before ->
  rerender before true true w = afterReplay w.
Proof.
  intros Hb Hi Hl Hu Hv Hx.
  open_store w; subst. open_store before; subst.
  unfold afterReplay, rerender, flush.
  cbv [isInitialized currentIndex Bool.eqb negb].
  run_renders; try reflexivity; try contradiction; f_equal; congruence.
Qed.

Lemma rerender_mount before w :
  isInitialized before = false -> currentIndex before = -1 ->
  isInitialized w = true -> isInitialLoadRef w = true ->
  isUndoRedoRef w = false -> isValidationUpdateRef w = false ->
  currentIndex w = -1 ->
  rerender before true true w = afterMount w.
Proof.
  intros Hb Hbi Hi Hl Hu Hv Hx.
  open_store w; subst. open_store before; subst.
  unfold afterMount, rerender, flush.
  cbv [isInitialized currentIndex Bool.eqb negb].
  run_renders; try reflexivity; try discriminate.
Qed.

Lemma rerender_drag before w :
  isInitialized before = true ->
  isInitialized w = true -> isInitialLoadRef w = false ->
  isUndoRedoRef w = false -> isValidationUpdateRef w = false ->
  isDraggingRef w = true ->
  currentIndexRef w = currentIndex before ->
  currentIndex w = currentIndex before ->
  rerender before true false w = afterDragMove w.
Proof.
  intros Hb Hi Hl Hu Hv Hd Hr Hx.
  open_store w; subst. open_store before; subst.
  unfold afterDragMove, rerender, flush.
  cbv [isInitialized currentIndex Bool.eqb negb].
  run_renders; reflexivity.
Qed.

Lemma dragTimerFires_eq st captured :
  settled st -> dragDebounceTimerRef st = Some captured ->
  dragTimerFires st = afterTimer captured st.
Proof.
  intros (Hi & Hl & Hu & Hv & Hr) Ht. unfold dragTimerFires. rewrite Ht.
  open_store st; cbv [dragDebounceTimerRef] in Ht; subst.
  unfold afterTimer, rerender, flush, pushSnapshot.
  cbv [isInitialized currentIndex currentIndexRef history Bool.eqb negb
       setDragDebounceTimerRef setIsDraggingRef setCurrentIndex setHistory emit
       nodes edges labelCounts isUndoRedoRef isInitialLoadRef
       isValidationUpdateRef isDraggingRef dragDebounceTimerRef localStorage events].
  run_renders; try reflexivity; f_equal; congruence.
Qed.

(** ** The history array *)

Lemma slice0_length {A} (idx : Z) (h : list A) :
  0 <= idx < Z.of_nat (List.length h) ->
  List.length (slice0 (idx + 1) h) = Z.to_nat (idx + 1).
Proof.
  intro H. unfold slice0.
  destruct (Z.ltb_spec (idx + 1) 0) as [L|L]; [lia|].
  rewrite length_firstn. lia.
Qed.

Lemma slice0_all {A} (idx : Z) (h : list A) :
  idx = Z.of_nat (List.length h) - 1 -> slice0 (idx + 1) h = h.
Proof.
  intros ->. unfold slice0.
  destruct (Z.ltb_spec (Z.of_nat (List.length h) - 1 + 1) 0) as [L|L]; [lia|].
  apply firstn_all2. lia.
Qed.

Lemma nth_error_tl {A} (l : list A) (i : nat) :
  nth_error (tl l) i = nth_error l (S i).
Proof. destruct l; [now destruct i|reflexivity]. Qed.

Lemma arrayGet_last {A} (l : list A) (x : A) :
  arrayGet (l ++ [x]) (Z.of_nat (List.length l)) = Some x.
Proof.
  unfold arrayGet.
  destruct (Z.ltb_spec (Z.of_nat (List.length l)) 0) as [L|L]; [lia|].
  rewrite Nat2Z.id, nth_error_app2, Nat.sub_diag; [reflexivity|lia].
Qed.

Section NextHistory.

Variables (idx : Z) (h : list HistoryState) (cur : HistoryState).
Hypothesis idx_range : 0 <= idx < Z.of_nat (List.length h).
Hypothesis len_bound : (List.length h <= MAX_HISTORY_SIZE)%nat.

Let next := nextHistoryAndIndex idx h cur.

Lemma next_length : (List.length (fst next) <= MAX_HISTORY_SIZE)%nat.
Proof.
  subst next. unfold nextHistoryAndIndex, MAX_HISTORY_SIZE in *.
  pose proof (@slice0_length _ idx h idx_range) as L.
  destruct (Nat.ltb_spec 50 (List.length (slice0 (idx + 1) h ++ [cur]))) as [C|C];
    cbn [fst]; rewrite length_app in C; cbn [List.length] in C.
  - destruct (slice0 (idx + 1) h) as [|a l]; cbn [List.length app tl] in *; [lia|].
    rewrite length_app; cbn [List.length]. lia.
  - rewrite length_app; cbn [List.length]. lia.
Qed.

Lemma next_index_latest : snd next = Z.of_nat (List.length (fst next)) - 1.
Proof.
  subst next. unfold nextHistoryAndIndex, MAX_HISTORY_SIZE in *.
  pose proof (@slice0_length _ idx h idx_range) as L.
  destruct (Nat.ltb_spec 50 (List.length (slice0 (idx + 1) h ++ [cur]))) as [C|C];
    cbn [fst snd]; rewrite length_app in C; cbn [List.length] in C.
  - destruct (slice0 (idx + 1) h) as [|a l]; cbn [List.length app tl] in *; [lia|].
    rewrite length_app; cbn [List.length]. lia.
  - rewrite length_app; cbn [List.length]. lia.
Qed.

Lemma next_index_positive : 1 <= snd next.
Proof.
  subst next. unfold nextHistoryAndIndex, MAX_HISTORY_SIZE in *.
  pose proof (@slice0_length _ idx h idx_range) as L.
  destruct (Nat.ltb_spec 50 (List.length (slice0 (idx + 1) h ++ [cur]))) as [C|C];
    cbn [fst snd]; [lia|].
  rewrite length_app; cbn [List.length]. lia.
Qed.

Lemma next_entry : arrayGet (fst next) (snd next) = Some cur.
Proof.
  subst next. unfold nextHistoryAndIndex, MAX_HISTORY_SIZE in *.
  pose proof (@slice0_length _ idx h idx_range) as L.
  destruct (Nat.ltb_spec 50 (List.length (slice0 (idx + 1) h ++ [cur]))) as [C|C];
    cbn [fst snd]; rewrite length_app in C; cbn [List.length] in C.
  - assert (E : List.length (slice0 (idx + 1) h) = 50%nat) by lia.
    unfold arrayGet.
    change (Z.of_nat 50 - 1 <? 0) with false. cbv iota.
    rewrite nth_error_tl.
    replace (S (Z.to_nat (Z.of_nat 50 - 1)))
      with (List.length (slice0 (idx + 1) h)) by lia.
    rewrite nth_error_app2, Nat.sub_diag; [reflexivity|lia].
  - rewrite length_app; cbn [List.length].
    replace (Z.of_nat (List.length (slice0 (idx + 1) h) + 1) - 1)
      with (Z.of_nat (List.length (slice0 (idx + 1) h))) by lia.
    apply arrayGet_last.
Qed.

End NextHistory.

(** At the latest entry with a full history the oldest entry goes. *)
Lemma next_evicts idx (h : list HistoryState) cur :
  idx = Z.of_nat (List.length h) - 1 -> List.length h = MAX_HISTORY_SIZE ->
  nextHistoryAndIndex idx h cur = (tl h ++ [cur], Z.of_nat MAX_HISTORY_SIZE - 1).
Proof.
  intros I F. unfold nextHistoryAndIndex.
  rewrite (@slice0_all _ idx h I).
  rewrite length_app, F. cbn [List.length].
  destruct h as [|a l]; [discriminate F|]. reflexivity.
Qed.

(** At the latest entry with room left the snapshot is appended. *)
Lemma next_appends idx (h : list HistoryState) cur :
  idx = Z.of_nat (List.length h) - 1 -> (List.length h < MAX_HISTORY_SIZE)%nat ->
  nextHistoryAndIndex idx h cur = (h ++ [cur], Z.of_nat (List.length h)).
Proof.
  intros I F. unfold nextHistoryAndIndex.
  rewrite (@slice0_all _ idx h I).
  destruct (Nat.ltb_spec MAX_HISTORY_SIZE (List.length (h ++ [cur]))) as [C|C];
    rewrite length_app in *; cbn [List.length] in *; [lia|].
  f_equal. lia.
Qed.

(** ** Invariants of the store at rest *)

Lemma afterWrite_good de w :
  0 <= currentIndex w < Z.of_nat (List.length (history w)) ->
  (List.length (history w) <= MAX_HISTORY_SIZE)%nat ->
  dragDebounceTimerRef w = None ->
  Good (afterWrite de w).
Proof.
  intros R B T.
  pose proof (@next_length (currentIndex w) (history w)
                {| s_nodes := nodes w; s_edges := edges w |} R B) as L.
  pose proof (@next_index_latest (currentIndex w) (history w)
                {| s_nodes := nodes w; s_edges := edges w |} R B) as X.
  pose proof (@next_index_positive (currentIndex w) (history w)
                {| s_nodes := nodes w; s_edges := edges w |} R B) as P.
  pose proof (@next_entry (currentIndex w) (history w)
                {| s_nodes := nodes w; s_edges := edges w |} R B) as E.
  repeat split; cbn [afterWrite history currentIndex currentIndexRef isInitialized
                     isInitialLoadRef isUndoRedoRef isValidationUpdateRef isDraggingRef
                     dragDebounceTimerRef];
    try reflexivity; try assumption; try lia.
  exists {| s_nodes := nodes w; s_edges := edges w |}.
  cbn [afterWrite history currentIndex edges nodes s_edges s_nodes].
  split; [exact E|]. split; [reflexivity|].
  destruct de; [left; reflexivity | right; split; [reflexivity|exact P]].
Qed.

Lemma afterMount_good w :
  isDraggingRef w = false -> dragDebounceTimerRef w = None -> Good (afterMount w).
Proof.
  intros D T. repeat split;
    cbn [afterMount history currentIndex currentIndexRef isInitialized
         isInitialLoadRef isUndoRedoRef isValidationUpdateRef isDraggingRef
         dragDebounceTimerRef List.length];
    try reflexivity; try assumption; unfold MAX_HISTORY_SIZE; try lia.
  exists {| s_nodes := nodes w; s_edges := edges w |}.
  cbn [afterMount history currentIndex edges nodes s_edges s_nodes].
  repeat split. now left.
Qed.

Lemma Some_inj {A} (a b : A) : Some a = Some b -> a = b.
Proof. congruence. Qed.

Lemma mount_eq saved st :
  mount saved = Some st ->
  exists w, st = afterMount w /\ isDraggingRef w = false
            /\ dragDebounceTimerRef w = None.
Proof.
  unfold mount.
  set (st0 := effectSyncIndex firstRender).
  assert (M : forall w, isInitialized w = true -> isInitialLoadRef w = true ->
                        isUndoRedoRef w = false -> isValidationUpdateRef w = false ->
                        currentIndex w = -1 ->
                        rerender st0 true true w = afterMount w)
    by (intros w ? ? ? ? ?; apply rerender_mount; [reflexivity|reflexivity|assumption..]).
  assert (D : forall s, Some (rerender st0 true true (loadDefaults st0)) = Some s ->
                        exists w, s = afterMount w /\ isDraggingRef w = false
                                  /\ dragDebounceTimerRef w = None).
  { intros s H. apply Some_inj in H. subst s.
    exists (loadDefaults st0); split; [apply M; reflexivity|split; reflexivity]. }
  destruct saved as [| |v]; cbn [bind]; try exact (D st).
  destruct (getProp (Some v) "nodes") as [|jn]; cbn [bind]; [exact (D st)|].
  destruct (getProp (Some v) "edges") as [|je]; cbn [bind]; [exact (D st)|].
  destruct (labelLoopCompletes jn); cbn [bind]; [|exact (D st)].
  destruct (readNodes jn) as [ns|]; cbn [bind]; [|discriminate].
  destruct (readEdges je) as [es|]; cbn [bind]; [|discriminate].
  intro H. apply Some_inj in H. subst st.
  eexists; split; [apply M; reflexivity|split; reflexivity].
Qed.

Lemma mount_good saved st : mount saved = Some st -> Good st.
Proof.
  intro H. apply mount_eq in H. destruct H as (w & -> & D & T).
  now apply afterMount_good.
Qed.

Section HandlersAtRest.

Variable applyNodeChanges : list NodeChange -> list FunnelNode -> list FunnelNode.
Variable applyEdgeChanges : list EdgeChange -> list FunnelEdge -> list FunnelEdge.
Variable addEdge : EdgeParams -> list FunnelEdge -> list FunnelEdge.

Variable st : Store.
Hypothesis st_inv : Inv st.

(** A handler that writes fresh arrays into a store at rest, and touches
    neither the flags nor the index ref, is followed by [afterWrite]. *)
Lemma handler_write w dn de :
  isInitialized w = isInitialized st ->
  isInitialLoadRef w = isInitialLoadRef st ->
  isUndoRedoRef w = isUndoRedoRef st ->
  isValidationUpdateRef w = isValidationUpdateRef st ->
  isDraggingRef w = false ->
  currentIndexRef w = currentIndexRef st ->
  dn || de = true ->
  rerender st dn de w = afterWrite de w.
Proof.
  destruct st_inv as [(I & L & U & V & R) D _ _].
  intros Iw Lw Uw Vw Dw Rw C.
  apply rerender_write; try assumption; congruence.
Qed.

Lemma addNode_eq t pos now :
  addNode t pos now st
  = afterWrite false
      (setLabelCounts
         (setCount (labelCounts st) t (getCount (labelCounts st) t + 1)%N)
         (setNodes (nodes st
                    ++ [newNode t pos now (getCount (labelCounts st) t + 1)%N]) st)).
Proof.
  unfold addNode. apply handler_write; try reflexivity. apply st_inv.
Qed.

Lemma deleteNode_eq nodeId :
  deleteNode nodeId st
  = afterWrite true
      (setEdges (filter (fun e => negb (String.eqb (source e) nodeId)
                                  && negb (String.eqb (target e) nodeId)) (edges st))
         (setNodes (filter (fun n => negb (String.eqb (id n) nodeId)) (nodes st)) st)).
Proof.
  unfold deleteNode. apply handler_write; try reflexivity. apply st_inv.
Qed.

Lemma deleteEdge_eq edgeId :
  deleteEdge edgeId st
  = afterWrite true
      (setEdges (filter (fun e => negb (String.eqb (eid e) edgeId)) (edges st)) st).
Proof.
  unfold deleteEdge. apply handler_write; try reflexivity. apply st_inv.
Qed.

Lemma onEdgesChange_eq changes :
  onEdgesChange applyEdgeChanges changes st
  = afterWrite true (setEdges (applyEdgeChanges changes (edges st)) st).
Proof.
  unfold onEdgesChange. apply handler_write; try reflexivity. apply st_inv.
Qed.

Lemma onNodesChange_eq changes :
  existsb isPositionChange changes = false ->
  onNodesChange applyNodeChanges changes st
  = afterWrite false
      (setNodes (applyNodeChanges changes (nodes st)) (setIsDraggingRef false st)).
Proof.
  intro P. unfold onNodesChange. rewrite P.
  apply handler_write; reflexivity.
Qed.

Lemma onConnect_cases connection :
  onConnect addEdge connection st = st
  \/ onConnect addEdge connection st
     = afterWrite true
         (setEdges (addEdge {| p_connection := connection; p_animated := true |}
                      (edges st)) st).
Proof.
  unfold onConnect.
  destruct (match find _ (nodes st) with Some n => _ | None => false end);
    [now left|].
  destruct (sameEdges _ (edges st)); [now left|right].
  apply handler_write; try reflexivity. apply st_inv.
Qed.

Lemma clearFunnel_eq :
  clearFunnel st
  = afterWrite true
      (setCurrentIndex 0
         (setHistory [ {| s_nodes := []; s_edges := [] |} ]
            (setLabelCounts createLabelCounter (setEdges [] (setNodes [] st))))).
Proof.
  unfold clearFunnel. apply handler_write; try reflexivity. apply st_inv.
Qed.

Lemma importWrites_write ns es (f : Store -> Store) :
  (forall s, isInitialized (f s) = isInitialized s /\
             isInitialLoadRef (f s) = isInitialLoadRef s /\
             isUndoRedoRef (f s) = isUndoRedoRef s /\
             isValidationUpdateRef (f s) = isValidationUpdateRef s /\
             isDraggingRef (f s) = isDraggingRef s /\
             currentIndexRef (f s) = currentIndexRef s) ->
  rerender st true true (f (importWrites ns es st))
  = afterWrite true (f (importWrites ns es st)).
Proof.
  intro F. destruct (F (importWrites ns es st)) as (A & B & C & D & E & G).
  apply handler_write; try reflexivity; try assumption.
  rewrite E. apply st_inv.
Qed.

(** What a call of [importFunnel] can leave behind in a typed store:
    the store untouched, or the writes of the import followed by the
    renders of a user write. *)
Lemma importFunnel_cases parsed b st' :
  importFunnel parsed st = (b, Some st') ->
  (b = false /\ st' = st)
  \/ exists ns es lc,
       st' = afterWrite true (setLabelCounts lc (importWrites ns es st)).
Proof.
  unfold importFunnel.
  destruct (importRun parsed) as [|jn je|jn je];
    [intro H; injection H as <- <-; now left| |];
    (destruct (readNodes jn) as [ns|]; cbn [bind]; [|discriminate]);
    (destruct (readEdges je) as [es|]; cbn [bind]; [|discriminate]);
    intro H; injection H as <- <-; right.
  - exists ns, es, (labelCounts st).
    replace (setLabelCounts (labelCounts st) (importWrites ns es st))
      with (importWrites ns es st) by reflexivity.
    apply (importWrites_write ns es (fun s => s)).
    intro s; repeat split.
  - exists ns, es, (reconstructImport ns).
    apply (importWrites_write ns es (setLabelCounts (reconstructImport ns))).
    intro s; repeat split.
Qed.

End HandlersAtRest.

(** *** Drag gestures *)

Lemma afterTimer_good st :
  Dragging st ->
  Good (afterTimer {| s_nodes := nodes st; s_edges := edges st |} st).
Proof.
  intros (Hs & _ & _ & B & R).
  pose proof (@next_length (currentIndex st) (history st)
                {| s_nodes := nodes st; s_edges := edges st |} R B) as L.
  pose proof (@next_index_latest (currentIndex st) (history st)
                {| s_nodes := nodes st; s_edges := edges st |} R B) as X.
  pose proof (@next_index_positive (currentIndex st) (history st)
                {| s_nodes := nodes st; s_edges := edges st |} R B) as P.
  pose proof (@next_entry (currentIndex st) (history st)
                {| s_nodes := nodes st; s_edges := edges st |} R B) as E.
  repeat split; cbn [afterTimer history currentIndex currentIndexRef isInitialized
                     isInitialLoadRef isUndoRedoRef isValidationUpdateRef isDraggingRef
                     dragDebounceTimerRef];
    try reflexivity; try assumption; try lia.
  exists {| s_nodes := nodes st; s_edges := edges st |}.
  cbn [afterTimer history currentIndex edges nodes s_edges s_nodes].
  split; [exact E|]. split; [reflexivity|]. right. split; [reflexivity|exact P].
Qed.

Section DragGesture.

Variable applyNodeChanges : list NodeChange -> list FunnelNode -> list FunnelNode.

(** A pointer move, from a store at rest or from the middle of a drag. *)
Lemma drag_move st changes :
  settled st ->
  (List.length (history st) <= MAX_HISTORY_SIZE)%nat ->
  0 <= currentIndex st < Z.of_nat (List.length (history st)) ->
  existsb isPositionChange changes = true ->
  Dragging (onNodesChange applyNodeChanges changes st) /\
  edges (onNodesChange applyNodeChanges changes st) = edges st.
Proof.
  intros (Hi & Hl & Hu & Hv & Hr) B R P.
  unfold onNodesChange. rewrite P.
  rewrite rerender_drag; try assumption; try reflexivity.
  split; [|reflexivity].
  repeat split; cbn; try reflexivity; try assumption; apply R.
Qed.

Lemma drag_moves moves :
  forall st,
    Dragging st -> forallb (existsb isPositionChange) moves = true ->
    Dragging (fold_left (fun s changes => onNodesChange applyNodeChanges changes s)
                moves st) /\
    edges (fold_left (fun s changes => onNodesChange applyNodeChanges changes s)
             moves st) = edges st.
Proof.
  induction moves as [|changes moves IH]; intros st D F; cbn [fold_left].
  - now split.
  - cbn [forallb] in F. apply Bool.andb_true_iff in F. destruct F as [Fc Fm].
    destruct D as (Hs & _ & _ & B & R).
    destruct (drag_move changes Hs B R Fc) as (D' & E').
    destruct (IH _ D' Fm) as (D'' & E''). split; [assumption|congruence].
Qed.

(** A whole gesture from a store at rest: one snapshot, of the state the
    last move left. *)
Lemma drag_gesture st changes moves :
  Inv st -> forallb (existsb isPositionChange) (changes :: moves) = true ->
  Good (dragTimerFires
          (fold_left (fun s cs => onNodesChange applyNodeChanges cs s)
             (changes :: moves) st)) /\
  edges (dragTimerFires
           (fold_left (fun s cs => onNodesChange applyNodeChanges cs s)
              (changes :: moves) st)) = edges st.
Proof.
  intros I F.
  cbn [fold_left forallb] in *. apply Bool.andb_true_iff in F. destruct F as [Fc Fm].
  destruct (drag_move changes (inv_settled I) (inv_len I) (inv_idx I) Fc) as (D & E).
  destruct (drag_moves moves D Fm) as (D' & E').
  pose proof D' as (Hs & _ & Ht & _ & _).
  rewrite (dragTimerFires_eq Hs Ht).
  split; [now apply afterTimer_good|]. cbn [afterTimer edges]. congruence.
Qed.

End DragGesture.

(** A mutation that settles leaves the store as it is, or is a user write
    ([afterWrite] of what the handler wrote, with the validation pass
    exactly when the handler wrote [edges]), or is a drag gesture, which
    leaves the edges alone. *)
Lemma mutate_cases applyNodeChanges applyEdgeChanges addEdge m st st' :
  Inv st -> settles m = true ->
  mutate applyNodeChanges applyEdgeChanges addEdge m st = Some st' ->
  st' = st
  \/ (exists de w,
        st' = afterWrite de w /\ events w = events st /\
        (de = false -> edges w = edges st) /\
        0 <= currentIndex w < Z.of_nat (List.length (history w)) /\
        (List.length (history w) <= MAX_HISTORY_SIZE)%nat /\
        dragDebounceTimerRef w = None)
  \/ (edges st' = edges st /\ Good st').
Proof.
  intros I N H.
  pose proof (inv_idx I) as X. pose proof (inv_len I) as B.
  pose proof (inv_timer I) as T.
  destruct m; cbn [mutate settles] in *.
  - apply Some_inj in H; subst st'. rewrite addNode_eq by assumption.
    right; left; do 2 eexists; split; [reflexivity|].
    repeat split; assumption || apply X.
  - apply Some_inj in H; subst st'. rewrite deleteNode_eq by assumption.
    right; left; do 2 eexists; split; [reflexivity|].
    repeat split; try assumption; try apply X; discriminate.
  - apply Some_inj in H; subst st'. rewrite deleteEdge_eq by assumption.
    right; left; do 2 eexists; split; [reflexivity|].
    repeat split; try assumption; try apply X; discriminate.
  - apply Some_inj in H; subst st'.
    destruct (onConnect_cases addEdge I connection) as [-> | ->]; [now left|].
    right; left; do 2 eexists; split; [reflexivity|].
    repeat split; try assumption; try apply X; discriminate.
  - apply Some_inj in H; subst st'. apply Bool.negb_true_iff in N.
    rewrite onNodesChange_eq by assumption.
    right; left; do 2 eexists; split; [reflexivity|].
    repeat split; assumption || apply X.
  - apply Some_inj in H; subst st'.
    destruct moves as [|changes moves].
    + left. cbn [fold_left]. unfold dragTimerFires. now rewrite T.
    + right; right.
      destruct (@drag_gesture applyNodeChanges st changes moves I N) as (G & E).
      now split.
  - apply Some_inj in H; subst st'. rewrite onEdgesChange_eq by assumption.
    right; left; do 2 eexists; split; [reflexivity|].
    repeat split; try assumption; try apply X; discriminate.
  - destruct (importFunnel parsed st) as [b o] eqn:E. cbn [snd] in H. subst o.
    destruct (importFunnel_cases I _ E) as [(_ & ->) | (ns & es & lc & ->)];
      [now left|].
    right; left; do 2 eexists; split; [reflexivity|].
    repeat split; try discriminate; try exact T; cbn; unfold MAX_HISTORY_SIZE; lia.
  - apply Some_inj in H; subst st'. rewrite clearFunnel_eq by assumption.
    right; left; do 2 eexists; split; [reflexivity|].
    repeat split; try discriminate; try exact T; cbn; unfold MAX_HISTORY_SIZE; lia.
Qed.

Lemma mutate_good applyNodeChanges applyEdgeChanges addEdge m st st' :
  Good st -> settles m = true ->
  mutate applyNodeChanges applyEdgeChanges addEdge m st = Some st' ->
  Good st'.
Proof.
  intros G N H. pose proof G as (I & _ & _).
  destruct (mutate_cases _ _ _ _ I N H)
    as [-> | [(de & w & -> & _ & _ & X & B & T) | (_ & G')]];
    [assumption | now apply afterWrite_good | assumption].
Qed.

Lemma mutateAll_good applyNodeChanges applyEdgeChanges addEdge ms :
  forall st st',
    Good st -> forallb settles ms = true ->
    mutateAll applyNodeChanges applyEdgeChanges addEdge ms st = Some st' ->
    Good st'.
Proof.
  induction ms as [|m ms IH]; intros st st' G N H; cbn [mutateAll] in H.
  - now injection H as <-.
  - cbn [forallb] in N. apply Bool.andb_true_iff in N. destruct N as [Nm Nms].
    destruct (mutate applyNodeChanges applyEdgeChanges addEdge m st) as [st1|] eqn:E;
      cbn [bind] in H; [|discriminate].
    apply (IH st1 st'); try assumption.
    now apply (mutate_good _ _ _ _ G Nm E).
Qed.

Lemma nonDrag_settles ms : forallb nonDrag ms = true -> forallb settles ms = true.
Proof.
  induction ms as [|m ms IH]; [reflexivity|]. cbn [forallb]. intro H.
  apply Bool.andb_true_iff in H. destruct H as [Hm Hms].
  rewrite (IH Hms), Bool.andb_true_r. destruct m; try reflexivity; try exact Hm.
  discriminate Hm.
Qed.

Lemma session_good applyNodeChanges applyEdgeChanges addEdge saved ms st :
  forallb settles ms = true ->
  session applyNodeChanges applyEdgeChanges addEdge saved ms = Some st ->
  Good st.
Proof.
  unfold session. intros N H.
  destruct (mount saved) as [st0|] eqn:M; cbn [bind] in H; [|discriminate].
  apply (mutateAll_good _ _ _ ms (mount_good _ M) N H).
Qed.

(** ** Undo and redo *)

Lemma arrayGet_in_range {A} (l : list A) (i : Z) :
  0 <= i < Z.of_nat (List.length l) -> exists x, arrayGet l i = Some x.
Proof.
  intro R. unfold arrayGet.
  destruct (Z.ltb_spec i 0) as [L|L]; [lia|].
  destruct (nth_error l (Z.to_nat i)) as [x|] eqn:E; [now exists x|].
  apply nth_error_None in E. lia.
Qed.

Lemma undo_at_bottom st : currentIndex st <= 0 -> undo st = st.
Proof.
  intro L. unfold undo.
  destruct (Z.leb_spec (currentIndex st) 0) as [_|C]; [reflexivity|lia].
Qed.

Lemma redo_at_top st :
  Z.of_nat (List.length (history st)) - 1 <= currentIndex st -> redo st = st.
Proof.
  intro L. unfold redo.
  destruct (Z.leb_spec (Z.of_nat (List.length (history st)) - 1) (currentIndex st))
    as [_|C]; [reflexivity|lia].
Qed.




Lemma iter_S {A} (f : A -> A) (x : A) (k : nat) :
  Nat.iter (S k) f x = f (Nat.iter k f x).
Proof. reflexivity. Qed.

Lemma iter_O {A} (f : A -> A) (x : A) : Nat.iter 0 f x = x.
Proof. reflexivity. Qed.





(** ** What the renders never touch *)









Lemma mount_default : mount Absent = Some defaultStore.
Proof.
  unfold mount, defaultStore. cbn [bind].
  rewrite rerender_mount; reflexivity.
Qed.

Lemma defaultStore_good : Good defaultStore.
Proof. exact (mount_good Absent mount_default). Qed.

(** ** The validation pass on the store *)

Lemma validationPass_fields st :
  isInitialized st = true -> isInitialLoadRef st = false ->
  let st1 := validationPass st in
  nodes st1 = validateNodes (edges st) (nodes st) /\ edges st1 = edges st /\
  history st1 = history st /\ currentIndex st1 = currentIndex st /\
  isInitialized st1 = true /\ isInitialLoadRef st1 = false.
Proof.
  intros Hi Hl. open_store st; subst.
  unfold validationPass, flush. cbv [isInitialized].
  replace (effectValidate _) with
    (setNodes (validateNodes e n)
       (emit EvValidate
          (setIsValidationUpdateRef true
             {| nodes := n; edges := e; labelCounts := lc; isInitialized := true;
                history := h; currentIndex := ci; currentIndexRef := cir;
                isUndoRedoRef := ur; isInitialLoadRef := false;
                isValidationUpdateRef := vu; isDraggingRef := dr;
                dragDebounceTimerRef := tm; localStorage := ls; events := ev |})))
    by reflexivity.
  store_eval.
  destruct ur; run_renders; repeat split.
Qed.

(** ** Labels never collide with reconstructed counters *)

Lemma trailingDigits_length s : (String.length (trailingDigits s) <= String.length s)%nat.
Proof.
  induction s as [|c s IH]; cbn [trailingDigits String.length]; [lia|].
  destruct (isDigit c && Nat.eqb _ _); cbn [String.length]; lia.
Qed.

Lemma trailingDigits_allDigits s : allDigits s = true -> trailingDigits s = s.
Proof.
  induction s as [|c s IH]; [reflexivity|].
  cbn [allDigits trailingDigits]. intro H.
  apply Bool.andb_true_iff in H. destruct H as [Hc Hs].
  rewrite (IH Hs), Hc, Nat.eqb_refl. reflexivity.
Qed.

Lemma string_length_append a b :
  String.length (String.append a b) = (String.length a + String.length b)%nat.
Proof. induction a as [|c a IH]; cbn; [reflexivity|now rewrite IH]. Qed.

Lemma trailingDigits_after_separator prefix c ds :
  isDigit c = false -> allDigits ds = true ->
  trailingDigits (String.append prefix (String c ds)) = ds.
Proof.
  intros Hc Hd. induction prefix as [|a prefix IH].
  - cbn [String.append trailingDigits].
    now rewrite (trailingDigits_allDigits ds Hd), Hc.
  - cbn [String.append trailingDigits]. rewrite IH.
    destruct (Nat.eqb_spec (String.length ds)
                (String.length (String.append prefix (String c ds)))) as [E|_].
    + rewrite string_length_append in E. cbn [String.length] in E. lia.
    + now rewrite Bool.andb_false_r.
Qed.

Lemma string_of_uint_allDigits d : allDigits (NilEmpty.string_of_uint d) = true.
Proof. induction d; cbn [NilEmpty.string_of_uint allDigits]; auto. Qed.

Ltac eval_digit :=
  match goal with
  | |- context [digitValue ?c] =>
      let v := eval vm_compute in (digitValue c) in
      change (digitValue c) with v
  end.

Lemma parseDigits_acc d : forall acc : positive,
  parseDigits (Npos acc) (NilEmpty.string_of_uint d) = Npos (Pos.of_uint_acc d acc).
Proof.
  induction d; intro acc; cbn [NilEmpty.string_of_uint parseDigits Pos.of_uint_acc];
    try reflexivity; eval_digit; rewrite <- IHd; f_equal; lia.
Qed.

Lemma parseDigits_of_uint d :
  parseDigits 0 (NilEmpty.string_of_uint d) = N.of_uint d.
Proof.
  unfold N.of_uint.
  induction d; cbn [NilEmpty.string_of_uint parseDigits Pos.of_uint];
    try reflexivity; eval_digit; try exact IHd;
    rewrite <- parseDigits_acc; f_equal.
Qed.

Lemma numberToString_nonempty n : numberToString n <> "".
Proof.
  unfold numberToString. destruct n as [|p]; [discriminate|].
  cbn [N.to_uint]. pose proof (DecimalPos.Unsigned.to_uint_nonnil p) as H.
  destruct (Pos.to_uint p); try discriminate. now contradiction H.
Qed.

Lemma labelSuffix_numbered base n :
  labelSuffix (String.append base (String.append " " (numberToString n))) = Some n.
Proof.
  unfold labelSuffix. cbn [String.append].
  rewrite trailingDigits_after_separator;
    [|reflexivity|apply string_of_uint_allDigits].
  pose proof (numberToString_nonempty n) as NE.
  destruct (numberToString n) as [|c s] eqn:E; [contradiction|].
  rewrite <- E. unfold numberToString.
  now rewrite parseDigits_of_uint, DecimalN.Unsigned.of_to.
Qed.

Lemma getCount_setCount c t v t' :
  getCount (setCount c t v) t' = if NodeType_eqb t' t then v else getCount c t'.
Proof. destruct t, t'; reflexivity. Qed.

Section Reconstruct.

Variable step : LabelCounts -> FunnelNode -> LabelCounts.

Hypothesis step_mono :
  forall c n t, (getCount c t <= getCount (step c n) t)%N.

Hypothesis step_covers :
  forall c n k, labelSuffix (label (data n)) = Some k ->
                (k <= getCount (step c n) (nodeType (data n)))%N.

Lemma fold_step_mono nds :
  forall c t, (getCount c t <= getCount (fold_left step nds c) t)%N.
Proof.
  induction nds as [|n nds IH]; intros c t; cbn [fold_left]; [lia|].
  specialize (IH (step c n) t). pose proof (step_mono c n t). lia.
Qed.

Lemma fold_step_covers nds :
  forall c n k,
    In n nds -> labelSuffix (label (data n)) = Some k ->
    (k <= getCount (fold_left step nds c) (nodeType (data n)))%N.
Proof.
  induction nds as [|m nds IH]; intros c n k M L; [destruct M|].
  cbn [fold_left]. destruct M as [->|M].
  - pose proof (step_covers c n L).
    pose proof (fold_step_mono nds (step c n) (nodeType (data n))). lia.
  - now apply IH.
Qed.

(** The label [addNode] would allocate next for the kind of an existing
    node differs from the label of that node. *)
Lemma fold_step_fresh nds n :
  In n nds ->
  label (data n)
  <> allocateLabel (nodeType (data n))
       (getCount (fold_left step nds createLabelCounter) (nodeType (data n)) + 1).
Proof.
  intros M E.
  remember (nodeType (data n)) as t eqn:Ht.
  pose proof (fold_step_mono nds createLabelCounter t) as Mo.
  pose proof (fun k => @fold_step_covers nds createLabelCounter n k M) as C.
  rewrite <- Ht in C.
  remember (getCount (fold_left step nds createLabelCounter) t) as count eqn:Hc.
  assert (Numbered : allocateLabel t (count + 1)
                     = String.append (cfg_label (NODE_TYPE_CONFIG t))
                         (String.append " " (numberToString (count + 1)))).
  { unfold allocateLabel.
    destruct (NodeType_eqb t upsell || NodeType_eqb t downsell) eqn:K; [reflexivity|].
    assert (1 <= count)%N
      by (destruct t; cbn in K; try discriminate K; cbn in Mo; lia).
    destruct (N.ltb_spec 1 (count + 1)); [reflexivity|lia]. }
  rewrite Numbered in E.
  pose proof (labelSuffix_numbered (cfg_label (NODE_TYPE_CONFIG t)) (count + 1)) as L.
  rewrite <- E in L. specialize (C _ L). lia.
Qed.

End Reconstruct.

Lemma reconstructLoadStep_mono c n t :
  (getCount c t <= getCount (reconstructLoadStep c n) t)%N.
Proof.
  unfold reconstructLoadStep.
  destruct (labelSuffix (label (data n))) as [num|].
  - destruct (N.leb_spec (getCount c (nodeType (data n))) num); [|lia].
    rewrite getCount_setCount.
    destruct (NodeType_eqb t (nodeType (data n))) eqn:E; [|lia].
    apply NodeType_eqb_eq in E. subst t. lia.
  - rewrite getCount_setCount.
    destruct (NodeType_eqb t (nodeType (data n))) eqn:E; [|lia].
    apply NodeType_eqb_eq in E. subst t. lia.
Qed.

Lemma reconstructLoadStep_covers c n k :
  labelSuffix (label (data n)) = Some k ->
  (k <= getCount (reconstructLoadStep c n) (nodeType (data n)))%N.
Proof.
  unfold reconstructLoadStep. intros ->.
  destruct (N.leb_spec (getCount c (nodeType (data n))) k); [|lia].
  rewrite getCount_setCount.
  replace (NodeType_eqb (nodeType (data n)) (nodeType (data n))) with true
    by (symmetry; now apply NodeType_eqb_eq).
  lia.
Qed.

Lemma reconstructImportStep_mono c n t :
  (getCount c t <= getCount (reconstructImportStep c n) t)%N.
Proof.
  unfold reconstructImportStep.
  destruct (labelSuffix (label (data n))) as [num|]; [|lia].
  destruct (N.leb_spec (getCount c (nodeType (data n))) num); [|lia].
  rewrite getCount_setCount.
  destruct (NodeType_eqb t (nodeType (data n))) eqn:E; [|lia].
  apply NodeType_eqb_eq in E. subst t. lia.
Qed.

Lemma reconstructImportStep_covers c n k :
  labelSuffix (label (data n)) = Some k ->
  (k <= getCount (reconstructImportStep c n) (nodeType (data n)))%N.
Proof.
  unfold reconstructImportStep. intros ->.
  destruct (N.leb_spec (getCount c (nodeType (data n))) k); [|lia].
  rewrite getCount_setCount.
  replace (NodeType_eqb (nodeType (data n)) (nodeType (data n))) with true
    by (symmetry; now apply NodeType_eqb_eq).
  lia.
Qed.



(** ... so the next label allocated for a kind is not the label of any
    node of that kind. *)
Lemma reconstructLoad_fresh nds n :
  In n nds ->
  label (data n)
  <> allocateLabel (nodeType (data n))
       (getCount (reconstructLoad nds) (nodeType (data n)) + 1).
Proof.
  apply (@fold_step_fresh reconstructLoadStep
           reconstructLoadStep_mono reconstructLoadStep_covers).
Qed.

Lemma reconstructImport_fresh nds n :
  In n nds ->
  label (data n)
  <> allocateLabel (nodeType (data n))
       (getCount (reconstructImport nds) (nodeType (data n)) + 1).
Proof.
  apply (@fold_step_fresh reconstructImportStep
           reconstructImportStep_mono reconstructImportStep_covers).
Qed.

(** * Main results *)

(** ** History *)

(** C2.  After mounting and any sequence of mutations outside the drag
    path, the history holds at most 50 entries and the index points at the
    latest one; taking a snapshot of a full history evicts the oldest entry
    and leaves the index at 49, and otherwise appends. *)
Theorem history_bounded_index_latest
  applyNodeChanges applyEdgeChanges addEdge saved ms st :
  forallb nonDrag ms = true ->
  session applyNodeChanges applyEdgeChanges addEdge saved ms = Some st ->
  (List.length (history st) <= MAX_HISTORY_SIZE)%nat /\
  currentIndex st = Z.of_nat (List.length (history st)) - 1 /\
  (forall snapshot,
     List.length (history st) = MAX_HISTORY_SIZE ->
     history (pushSnapshot snapshot st) = tl (history st) ++ [snapshot] /\
     currentIndex (pushSnapshot snapshot st) = 49) /\
  (forall snapshot,
     (List.length (history st) < MAX_HISTORY_SIZE)%nat ->
     history (pushSnapshot snapshot st) = history st ++ [snapshot] /\
     currentIndex (pushSnapshot snapshot st) = Z.of_nat (List.length (history st))).
Proof.
  intros N H.
  destruct (session_good _ _ _ _ _ (nonDrag_settles ms N) H) as (I & L & _).
  pose proof (inv_idx I) as X. pose proof (inv_len I) as B.
  destruct (inv_settled I) as (_ & _ & _ & _ & R).
  unfold atLatest in L.
  split; [exact B|]. split; [exact L|].
  split; intros snapshot F; unfold pushSnapshot;
    cbn [history currentIndex setCurrentIndex setHistory emit currentIndexRef];
    rewrite R.
  - rewrite (@next_evicts (currentIndex st) (history st) snapshot L F). now split.
  - rewrite (@next_appends (currentIndex st) (history st) snapshot L F). now split.
Qed.

Lemma history_bounded_index_latest_witness :
  exists st,
    libSession Absent sixtyClicks = Some st /\
    List.length (history st) = 50%nat /\ currentIndex st = 49.
Proof.
  destruct (libSession Absent sixtyClicks) as [st|] eqn:E.
  - exists st. split; [reflexivity|].
    pose proof (@history_bounded_index_latest
                  libApplyNodeChanges libApplyEdgeChanges libAddEdge
                  Absent sixtyClicks st eq_refl E) as (B & L & _).
    assert (F : List.length (history st) = 50%nat).
    { revert E. unfold libSession.
      intro E. vm_compute in E. apply Some_inj in E. subst st. reflexivity. }
    split; [exact F|]. rewrite L, F. reflexivity.
  - vm_compute in E. discriminate E.
Defined.




(** ** Clear and import *)

(** On a store at rest [clearFunnel] always ends with two history entries:
    the one it writes and the snapshot the save effect pushes after it. *)
Lemma clearFunnel_history st :
  Inv st ->
  history (clearFunnel st)
  = [ {| s_nodes := []; s_edges := [] |}; {| s_nodes := []; s_edges := [] |} ]
  /\ currentIndex (clearFunnel st) = 1.
Proof.
  intro I. rewrite clearFunnel_eq by assumption. split; reflexivity.
Qed.

(** C3, the code at the failing inputs.  [clearFunnel] on the default
    funnel, and [importFunnel] of a well-formed file: each writes a
    one-entry history with index 0, and once the renders have settled the
    history has two entries, the index is 1 and undo is enabled. *)
Theorem reset_leaves_two_entries :
  (List.length (history (clearFunnel defaultStore)),
   currentIndex (clearFunnel defaultStore),
   canUndo (clearFunnel defaultStore)) = (2%nat, 1, true)
  /\ fst (importFunnel (Some oneSalesPage) defaultStore) = true
  /\ option_map (fun st => (List.length (history st), currentIndex st, canUndo st))
       (snd (importFunnel (Some oneSalesPage) defaultStore))
     = Some (2%nat, 1, true).
Proof. repeat split; vm_compute; reflexivity. Qed.

(** ** Order of the effects *)

(** C4, counterexample.  Deleting the edge from the sales page in the
    default funnel: the entry recorded for the mutation still says that no
    node has a warning, while the validated nodes of the store flag the
    sales page and the order page; the snapshot was pushed before the
    validation pass ran. *)
Lemma snapshot_precedes_validation :
  exists st entry,
    libSession Absent [MDeleteEdge "e-sales-order"] = Some st /\
    arrayGet (history st) (currentIndex st) = Some entry /\
    map (fun n => hasWarning (data n)) (s_nodes entry)
    = [Some false; Some false; Some false] /\
    map (fun n => hasWarning (data n)) (nodes st)
    = [Some true; Some true; Some false] /\
    s_nodes entry <> nodes st /\
    events st
    = EvSave {| s_nodes := nodes st; s_edges := edges st |}
      :: EvValidate :: EvSnapshot entry :: EvSave entry :: events defaultStore.
Proof.
  do 2 eexists. split; [vm_compute; reflexivity|].
  split; [vm_compute; reflexivity|].
  split; [vm_compute; reflexivity|].
  split; [vm_compute; reflexivity|].
  split; [|vm_compute; reflexivity].
  intro H. apply (f_equal (map (fun n => hasWarning (data n)))) in H.
  vm_compute in H. discriminate H.
Qed.

(** C4, as amended.  After mounting and any sequence of mutations, each
    drag having settled before the next action, a further mutation that
    changes the edge collection runs its effects in the order save, history
    snapshot, validation, save:
    the entry recorded for it holds the state as the mutation wrote it, the
    nodes of the store are the validation pass applied to the nodes of that
    entry, and only the second save carries them. *)
Theorem edge_mutation_effect_order
  applyNodeChanges applyEdgeChanges addEdge saved ms m st st' :
  forallb settles ms = true ->
  session applyNodeChanges applyEdgeChanges addEdge saved ms = Some st ->
  settles m = true ->
  mutate applyNodeChanges applyEdgeChanges addEdge m st = Some st' ->
  edges st' <> edges st ->
  exists written,
    events st'
    = EvSave {| s_nodes := nodes st'; s_edges := edges st' |}
      :: EvValidate :: EvSnapshot written :: EvSave written :: events st /\
    arrayGet (history st') (currentIndex st') = Some written /\
    s_edges written = edges st' /\
    nodes st' = validateNodes (edges st') (s_nodes written).
Proof.
  intros N H Nm Hm D.
  destruct (session_good _ _ _ _ _ N H) as (I & _ & _).
  destruct (mutate_cases _ _ _ _ I Nm Hm)
    as [-> | [(de & w & -> & Ev & Ed & X & B & _) | (E & _)]];
    [contradiction| |contradiction].
  destruct de; [|exfalso; apply D; cbn [afterWrite edges]; now apply Ed].
  exists {| s_nodes := nodes w; s_edges := edges w |}.
  cbn [afterWrite events nodes edges history currentIndex app s_edges s_nodes].
  rewrite Ev. repeat split.
  exact (@next_entry (currentIndex w) (history w)
           {| s_nodes := nodes w; s_edges := edges w |} X B).
Qed.

Lemma edge_mutation_effect_order_witness :
  exists st' written,
    mutate libApplyNodeChanges libApplyEdgeChanges libAddEdge
      (MDeleteEdge "e-sales-order") defaultStore = Some st' /\
    arrayGet (history st') (currentIndex st') = Some written /\
    nodes st' = validateNodes (edges st') (s_nodes written).
Proof.
  assert (S0 : libSession Absent [] = Some defaultStore) by exact mount_default.
  assert (D : edges (deleteEdge "e-sales-order" defaultStore) <> edges defaultStore).
  { intro H. apply (f_equal (@List.length _)) in H. vm_compute in H. discriminate H. }
  destruct (@edge_mutation_effect_order
              libApplyNodeChanges libApplyEdgeChanges libAddEdge
              Absent [] (MDeleteEdge "e-sales-order") defaultStore
              (deleteEdge "e-sales-order" defaultStore)
              eq_refl S0 eq_refl eq_refl D) as (written & _ & G & _ & V).
  exists (deleteEdge "e-sales-order" defaultStore), written.
  split; [reflexivity|]. split; assumption.
Defined.

(** ** Validation on the store *)

(** C6.  On an initialized store, running the validation pass and then
    running it again on the same edges: the second run leaves the nodes as
    the first left them; in the second run the callback returns, for every
    node, the very object it was given; in any run a node whose stored
    [hasWarning] and [warningMessage] equal the computed ones is returned
    as the same object; and neither run adds a history entry or moves the
    index. *)
Theorem validation_idempotent (st : Store) :
  isInitialized st = true -> isInitialLoadRef st = false ->
  nodes (validationPass st) = validateNodes (edges st) (nodes st) /\
  edges (validationPass st) = edges st /\
  nodes (validationPass (validationPass st)) = nodes (validationPass st) /\
  edges (validationPass (validationPass st)) = edges (validationPass st) /\
  Forall (fun n => validateNodeReturn (edges (validationPass st)) n = SameObject n)
         (nodes (validationPass st)) /\
  (forall n,
     hasWarning (data n) = Some (fst (computeWarning (edges st) n)) ->
     warningMessage (data n) = Some (snd (computeWarning (edges st) n)) ->
     validateNodeReturn (edges st) n = SameObject n) /\
  history (validationPass st) = history st /\
  history (validationPass (validationPass st)) = history st /\
  currentIndex (validationPass (validationPass st)) = currentIndex st.
Proof.
  intros Hi Hl.
  destruct (validationPass_fields st Hi Hl) as (N1 & E1 & H1 & C1 & I1 & L1).
  destruct (validationPass_fields (validationPass st) I1 L1)
    as (N2 & E2 & H2 & C2 & _ & _).
  repeat split; try congruence.
  - rewrite N2, E1, N1. apply validateNodes_idem.
  - rewrite N1, E1. apply Forall_forall. intros n M.
    unfold validateNodes in M. apply in_map_iff in M. destruct M as (m & <- & _).
    unfold validateNodeReturn. now rewrite validateNode_settled.
  - intros n Hw Hm. unfold validateNodeReturn, warningDiffers.
    rewrite Hw, Hm. cbn [opt_bool_eqb opt_string_eqb].
    now rewrite Bool.eqb_reflx, String.eqb_refl.
Qed.

Lemma validation_idempotent_witness :
  nodes (validationPass (validationPass defaultStore))
  = nodes (validationPass defaultStore)
  /\ Forall (fun n => validateNodeReturn (edges (validationPass defaultStore)) n
                      = SameObject n)
            (nodes (validationPass defaultStore))
  /\ history (validationPass (validationPass defaultStore)) = history defaultStore.
Proof.
  destruct (@validation_idempotent defaultStore eq_refl eq_refl)
    as (_ & _ & N & _ & F & _ & _ & H & _).
  split; [assumption|]. split; assumption.
Defined.

(** ** Connections *)

Lemma find_by_id (nds : list FunnelNode) (n : FunnelNode) :
  NoDup (map id nds) -> In n nds ->
  find (fun m => String.eqb (id m) (id n)) nds = Some n.
Proof.
  induction nds as [|m nds IH]; intros U M; [destruct M|].
  cbn [map] in U. inversion U as [|? ? Hnotin U']; subst.
  cbn [find]. destruct M as [->|M].
  - now rewrite String.eqb_refl.
  - destruct (String.eqb_spec (id m) (id n)) as [E|_]; [|now apply IH].
    exfalso. apply Hnotin. rewrite E. now apply in_map.
Qed.

(** C7, counterexample.  A file with two nodes of the same id is imported
    without complaint.  The id "a" then belongs to a thankYou node, but
    [nodes.find] stops at the sales page that carries the same id before
    it, so a connection from "a" is accepted and the edge collection
    grows. *)
Lemma connect_from_hidden_thankYou_accepted :
  exists st n,
    importFunnel (Some twinIds) defaultStore = (true, Some st) /\
    In n (nodes st) /\ id n = c_source fromTwin /\ nodeType (data n) = thankYou /\
    edges (onConnect libAddEdge fromTwin st) <> edges st.
Proof.
  eexists. eexists. split; [vm_compute; reflexivity|].
  split; [right; left; reflexivity|]. split; [reflexivity|]. split; [reflexivity|].
  vm_compute. discriminate.
Qed.

(** C7, as amended.  Whatever the store and the target, a connection is
    dropped when the node [nodes.find] returns for its source, the first
    one with that id, is a thankYou node: [onConnect] returns the store as
    it was, with no edge added and nothing written or reported.  When node
    ids are unique this is every connection whose source is the id of a
    thankYou node. *)
Theorem connect_from_thankYou_ignored
  (addEdge : EdgeParams -> list FunnelEdge -> list FunnelEdge)
  (st : Store) (connection : Connection) :
  (forall n,
     find (fun m => String.eqb (id m) (c_source connection)) (nodes st) = Some n ->
     nodeType (data n) = thankYou ->
     onConnect addEdge connection st = st) /\
  (NoDup (map id (nodes st)) ->
   forall n,
     In n (nodes st) -> id n = c_source connection -> nodeType (data n) = thankYou ->
     onConnect addEdge connection st = st).
Proof.
  assert (F : forall n,
             find (fun m => String.eqb (id m) (c_source connection)) (nodes st) = Some n ->
             nodeType (data n) = thankYou ->
             onConnect addEdge connection st = st).
  { intros n E T. unfold onConnect. rewrite E, T. reflexivity. }
  split; [exact F|].
  intros U n M S T. apply (F n); [|exact T].
  rewrite <- S. apply (@find_by_id (nodes st) n U M).
Qed.

Lemma connect_from_thankYou_ignored_witness :
  onConnect libAddEdge fromThankYou defaultStore = defaultStore.
Proof.
  apply (proj1 (@connect_from_thankYou_ignored libAddEdge defaultStore fromThankYou)
           (withWarning (mkNode "thankyou-1" 250 550 "Thank You" thankYou "Continue")
              (false, ""))).
  - reflexivity.
  - reflexivity.
Defined.



(** ** Import *)

(** [importFunnel] returns [false] without having called a setter exactly
    when the text does not parse, the parsed value is [null], or its
    [nodes] or [edges] is falsy. *)
Lemma importRun_rejected parsed :
  importRun parsed = Rejected <->
  match parsed with
  | None => True
  | Some v =>
      match getProp (Some v) "nodes", getProp (Some v) "edges" with
      | Ok jn, Ok je => truthy jn = false \/ truthy je = false
      | _, _ => True
      end
  end.
Proof.
  unfold importRun. destruct parsed as [v|]; [|split; trivial].
  destruct (getProp (Some v) "nodes") as [|jn]; [split; trivial|].
  destruct (getProp (Some v) "edges") as [|je].
  - destruct (truthy jn); cbn [negb]; split; trivial.
  - destruct (truthy jn), (truthy je); cbn [negb];
      try (split; [intros _; auto | reflexivity]).
    destruct (labelLoopCompletes jn); split; try discriminate;
      intros [H|H]; discriminate H.
Qed.

Lemma importFunnel_rejected parsed st :
  importRun parsed = Rejected -> importFunnel parsed st = (false, Some st).
Proof. intro R. unfold importFunnel. now rewrite R. Qed.



(** C8, the code at the failing input.  The text parses and both [nodes]
    and [edges] are there, so the format check passes and the setters are
    called with the parsed arrays; the label loop then throws on the node
    without [data], and [importFunnel] returns [false] with the store
    already overwritten. *)
Theorem import_writes_then_fails :
  importRun (Some nodeWithoutData)
  = WroteThenThrew
      (Some (JArr [ JObj [ ("id", JStr "n1"); ("type", JStr "funnelNode");
                           ("position", JObj [("x", JNum 120); ("y", JNum 80)]) ] ]))
      (Some (JArr []))
  /\ fst (importFunnel (Some nodeWithoutData) defaultStore) = false
  /\ snd (importFunnel (Some nodeWithoutData) defaultStore) <> Some defaultStore.
Proof.
  split; [reflexivity|]. split; [reflexivity|].
  vm_compute. discriminate.
Qed.

(** ** Label counters *)

(** C9, the code at the failing input.  The same file, read on load and
    read by [importFunnel]: the load path raises the upsell counter to 1 for
    the label without a number, the import path leaves it at 0. *)
Theorem import_skips_unnumbered_labels :
  option_map (fun st => c_upsell (labelCounts st)) (mount (Parsed unnumberedUpsell))
  = Some 1%N
  /\ option_map (fun st => c_upsell (labelCounts st))
       (snd (importFunnel (Some unnumberedUpsell) defaultStore))
     = Some 0%N
  /\ fst (importFunnel (Some unnumberedUpsell) defaultStore) = true.
Proof. repeat split; vm_compute; reflexivity. Qed.

(** * Further properties *)

(** ** The validation panel *)

Lemma filter_nil_iff {A} (f : A -> bool) (l : list A) :
  filter f l = [] <-> forall x, In x l -> f x = false.
Proof.
  induction l as [|a l IH]; cbn [filter]; [now split|].
  destruct (f a) eqn:F; split.
  - discriminate.
  - intro H. rewrite (H a) in F by now left. discriminate.
  - intros E x [<-|I]; [assumption|]. now apply IH.
  - intro H. apply IH. intros x I. apply H. now right.
Qed.

Lemma flat_map_nil_iff {A B} (f : A -> list B) (l : list A) :
  flat_map f l = [] <-> forall x, In x l -> f x = [].
Proof.
  induction l as [|a l IH]; cbn [flat_map]; [now split|]. split.
  - intros H x [<-|I]; apply app_eq_nil in H; [apply H|]. now apply IH.
  - intro H. rewrite (H a) by now left. apply IH. intros x I. apply H. now right.
Qed.

Lemma existsb_false_iff {A} (f : A -> bool) (l : list A) :
  existsb f l = false <-> forall x, In x l -> f x = false.
Proof.
  induction l as [|a l IH]; cbn [existsb]; [now split|].
  rewrite Bool.orb_false_iff, IH. split.
  - intros [Fa H] x [<-|I]; auto.
  - intro H. split; [apply H; now left|]. intros x I. apply H. now right.
Qed.

Lemma length_zero_nil {A} (l : list A) : Nat.ltb 0 (List.length l) = false <-> l = [].
Proof. destruct l; cbn; split; congruence. Qed.

(** X1.  The validation panel is empty exactly when every node that is not
    a sales page has an incoming edge, the funnel has a thankYou page or no
    node at all, and every sales page has an outgoing edge. *)
Theorem getValidationErrors_nil_iff (st : Store) :
  getValidationErrors st = [] <->
  (forall n, In n (nodes st) -> nodeType (data n) <> salesPage ->
             exists e, In e (edges st) /\ target e = id n) /\
  (nodes st = [] \/ exists n, In n (nodes st) /\ nodeType (data n) = thankYou) /\
  (forall n, In n (nodes st) -> nodeType (data n) = salesPage ->
             exists e, In e (edges st) /\ source e = id n).
Proof.
  unfold getValidationErrors.
  set (orph := filter (isOrphan (edges st)) (nodes st)).
  set (hasTY := existsb (fun n => NodeType_eqb (nodeType (data n)) thankYou) (nodes st)).
  assert (O : orph = [] <->
              forall n, In n (nodes st) -> nodeType (data n) <> salesPage ->
                        exists e, In e (edges st) /\ target e = id n).
  { unfold orph. rewrite filter_nil_iff. unfold isOrphan. split.
    - intros H n I K. specialize (H n I).
      destruct (NodeType_eqb (nodeType (data n)) salesPage) eqn:E;
        [apply NodeType_eqb_eq in E; contradiction|].
      apply Bool.negb_false_iff, existsb_exists in H. destruct H as (e & Ie & Te).
      apply String.eqb_eq in Te. now exists e.
    - intros H n I.
      destruct (NodeType_eqb (nodeType (data n)) salesPage) eqn:E; [reflexivity|].
      apply Bool.negb_false_iff, existsb_exists.
      destruct (H n I) as (e & Ie & Te).
      + intro K. apply NodeType_eqb_eq in K. congruence.
      + exists e. split; [assumption|]. now apply String.eqb_eq. }
  assert (T : negb hasTY && Nat.ltb 0 (List.length (nodes st)) = false <->
              (nodes st = [] \/ exists n, In n (nodes st) /\ nodeType (data n) = thankYou)).
  { unfold hasTY. rewrite Bool.andb_false_iff, Bool.negb_false_iff, existsb_exists,
      length_zero_nil. split.
    - intros [(n & I & K)|E]; [right; exists n; split; [assumption|now apply NodeType_eqb_eq]
                              |now left].
    - intros [E|(n & I & K)]; [now right|left; exists n; split;
                                         [assumption|now apply NodeType_eqb_eq]]. }
  assert (S : flat_map
                (fun sp =>
                   if Nat.eqb (List.length (filter (fun e => String.eqb (source e) (id sp))
                                              (edges st))) 0
                   then [noOutgoingMessage sp] else [])
                (filter (fun n => NodeType_eqb (nodeType (data n)) salesPage) (nodes st))
              = [] <->
              forall n, In n (nodes st) -> nodeType (data n) = salesPage ->
                        exists e, In e (edges st) /\ source e = id n).
  { rewrite flat_map_nil_iff. split.
    - intros H n I K. specialize (H n).
      rewrite filter_In in H. specialize (H (conj I (proj2 (NodeType_eqb_eq _ _) K))).
      destruct (filter _ (edges st)) as [|e l] eqn:F; [discriminate H|].
      assert (Ie : In e (filter (fun e => String.eqb (source e) (id n)) (edges st)))
        by (rewrite F; now left).
      apply filter_In in Ie. destruct Ie as [Ie Se]. apply String.eqb_eq in Se.
      now exists e.
    - intros H n I. apply filter_In in I. destruct I as [I K].
      apply NodeType_eqb_eq in K. destruct (H n I K) as (e & Ie & Se).
      destruct (filter _ (edges st)) as [|e' l] eqn:F; [|reflexivity].
      assert (X : In e (filter (fun e => String.eqb (source e) (id n)) (edges st)))
        by (apply filter_In; split; [assumption|now apply String.eqb_eq]).
      rewrite F in X. destruct X. }
  rewrite <- O, <- T, <- S. clear O T S.
  destruct (negb hasTY && Nat.ltb 0 (List.length (nodes st))) eqn:B.
  - split.
    + intro H. apply app_eq_nil in H. destruct H as [H _].
      apply app_eq_nil in H. destruct H as [_ H]. discriminate H.
    + intros (_ & H & _). discriminate H.
  - split.
    + intro H. apply app_eq_nil in H. destruct H as [H1 H2].
      repeat split; try assumption.
      destruct orph; [reflexivity|discriminate H1].
    + intros (H1 & _ & H2). rewrite H1, H2. reflexivity.
Qed.

Lemma validateNode_kind es n : nodeType (data (validateNode es n)) = nodeType (data n).
Proof. now rewrite validateNode_value. Qed.

Lemma validateNode_id es n : id (validateNode es n) = id n.
Proof. now rewrite validateNode_value. Qed.

Lemma validateNode_label es n : label (data (validateNode es n)) = label (data n).
Proof. now rewrite validateNode_value. Qed.

Lemma flaggedOrphan_validated es n : flaggedOrphan (validateNode es n) = isOrphan es n.
Proof.
  rewrite validateNode_value. unfold flaggedOrphan, isOrphan, withWarning, computeWarning,
    incomingEdges. cbn [data nodeType hasWarning opt_bool_eqb].
  destruct (NodeType_eqb (nodeType (data n)) salesPage); cbn [negb andb]; [reflexivity|].
  destruct (filter _ es) as [|e l] eqn:F.
  - cbn. symmetry. apply Bool.negb_true_iff, existsb_false_iff.
    now apply filter_nil_iff.
  - cbn. symmetry. apply Bool.negb_false_iff, existsb_exists.
    assert (I : In e (filter (fun e => String.eqb (target e) (id n)) es))
      by (rewrite F; now left).
    apply filter_In in I. now exists e.
Qed.

Lemma flaggedNoOrder_validated es n :
  flaggedNoOrder (validateNode es n)
  = NodeType_eqb (nodeType (data n)) salesPage
    && Nat.eqb (List.length (filter (fun e => String.eqb (source e) (id n)) es)) 0.
Proof.
  rewrite validateNode_value. unfold flaggedNoOrder, withWarning, computeWarning,
    outgoingEdges. cbn [data nodeType warningMessage opt_string_eqb].
  destruct (NodeType_eqb (nodeType (data n)) salesPage); cbn [negb andb]; [|reflexivity].
  destruct (List.length (filter _ es)) as [|[|k]]; reflexivity.
Qed.

Lemma flat_map_filter {A B} (p : A -> bool) (f : A -> list B) (l : list A) :
  flat_map f (filter p l) = flat_map (fun x => if p x then f x else []) l.
Proof.
  induction l as [|a l IH]; [reflexivity|]. cbn [filter flat_map].
  destruct (p a); cbn [flat_map app]; now rewrite IH.
Qed.

(** X2.  The panel and the warnings on the nodes never disagree: the lines
    [getValidationErrors] computes from the edges are the lines read off the
    warning fields of the nodes once the validation pass has run on them.
    The orphan count is the number of flagged nodes that are not sales
    pages; a sales page gets a line exactly when its warning is the one for
    no outgoing edge (the warning for several outgoing edges has no line). *)
Theorem panel_agrees_with_warnings (st : Store) :
  getValidationErrors st = errorsFromWarnings (validateNodes (edges st) (nodes st)).
Proof.
  unfold getValidationErrors, errorsFromWarnings, validateNodes.
  assert (F : forall l, List.length (filter flaggedOrphan (map (validateNode (edges st)) l))
                        = List.length (filter (isOrphan (edges st)) l)).
  { induction l as [|n l IH]; [reflexivity|]. cbn [map filter].
    rewrite flaggedOrphan_validated. destruct (isOrphan (edges st) n); cbn [List.length];
      now rewrite IH. }
  rewrite F, length_map.
  assert (E : forall l, existsb (fun n => NodeType_eqb (nodeType (data n)) thankYou)
                          (map (validateNode (edges st)) l)
                        = existsb (fun n => NodeType_eqb (nodeType (data n)) thankYou) l).
  { induction l as [|n l IH]; [reflexivity|]. cbn [map existsb].
    now rewrite validateNode_kind, IH. }
  rewrite E, flat_map_filter.
  assert (S : forall l,
              flat_map
                (fun n => if flaggedNoOrder n then [noOutgoingMessage n] else [])
                (map (validateNode (edges st)) l)
              = flat_map
                  (fun x =>
                     if NodeType_eqb (nodeType (data x)) salesPage
                     then if Nat.eqb (List.length
                                        (filter (fun e => String.eqb (source e) (id x))
                                           (edges st))) 0
                          then [noOutgoingMessage x] else []
                     else []) l).
  { induction l as [|n l IH]; [reflexivity|]. cbn [map flat_map].
    rewrite IH, flaggedNoOrder_validated.
    unfold noOutgoingMessage. rewrite validateNode_label.
    destruct (NodeType_eqb (nodeType (data n)) salesPage); cbn [andb]; [|reflexivity].
    destruct (Nat.eqb _ 0); reflexivity. }
  rewrite S.
  destruct (negb _ && _); [now rewrite <- app_assoc|reflexivity].
Qed.

(** ** Labels *)

Lemma labelSuffix_allocateLabel (t : NodeType) (newCount : N) :
  labelSuffix (allocateLabel t newCount)
  = if isNumbered t newCount then Some newCount else None.
Proof.
  unfold allocateLabel, isNumbered.
  destruct (NodeType_eqb t upsell || NodeType_eqb t downsell);
    cbn [orb]; [apply labelSuffix_numbered|].
  destruct (1 <? newCount)%N; [apply labelSuffix_numbered|].
  destruct t; reflexivity.
Qed.

(** X3.  The number [addNode] prints into a label is the number the load
    effect and [importFunnel] read back from it, as long as the count is a
    safe integer: a numbered label yields its count, and the unnumbered
    label of the first sales, order or thankYou page yields no number. *)
Theorem allocated_label_read_back (t : NodeType) (pos : Position) (now newCount : N) :
  (newCount <= MAX_SAFE_INTEGER)%N ->
  labelSuffix (label (data (newNode t pos now newCount)))
  = if isNumbered t newCount then Some newCount else None.
Proof. intros _. apply labelSuffix_allocateLabel. Qed.

Lemma allocated_label_read_back_witness :
  labelSuffix (label (data (newNode upsell {| px := 400; py := 300 |}
                              1700000000000 3)))
  = Some 3%N.
Proof.
  apply (@allocated_label_read_back upsell {| px := 400; py := 300 |}
           1700000000000 3).
  vm_compute. discriminate.
Defined.

(** X4.  Two nodes of the same kind added at different counts get
    different labels. *)
Theorem allocated_labels_distinct (t : NodeType) (a b : N) :
  (1 <= a)%N -> (1 <= b)%N -> a <> b -> allocateLabel t a <> allocateLabel t b.
Proof.
  intros A B D E. apply (f_equal labelSuffix) in E.
  rewrite !labelSuffix_allocateLabel in E. unfold isNumbered in E.
  destruct (NodeType_eqb t upsell || NodeType_eqb t downsell); cbn [orb] in E;
    [congruence|].
  destruct (N.ltb_spec 1 a), (N.ltb_spec 1 b); try congruence; lia.
Qed.

Lemma allocated_labels_distinct_witness :
  allocateLabel salesPage 1 <> allocateLabel salesPage 2.
Proof. apply (@allocated_labels_distinct salesPage 1 2); lia. Defined.

Lemma reconstructImportStep_count c n t :
  getCount (reconstructImportStep c n) t
  = if NodeType_eqb (nodeType (data n)) t
    then match labelSuffix (label (data n)) with
         | Some k => N.max (getCount c t) k
         | None => getCount c t
         end
    else getCount c t.
Proof.
  unfold reconstructImportStep.
  destruct (NodeType_eqb (nodeType (data n)) t) eqn:K.
  - apply NodeType_eqb_eq in K. subst t.
    destruct (labelSuffix (label (data n))) as [k|]; [|reflexivity].
    destruct (N.leb_spec (getCount c (nodeType (data n))) k).
    + rewrite getCount_setCount.
      replace (NodeType_eqb (nodeType (data n)) (nodeType (data n))) with true
        by (symmetry; now apply NodeType_eqb_eq). lia.
    + lia.
  - assert (K' : NodeType_eqb t (nodeType (data n)) = false)
      by (destruct t, (nodeType (data n)); try reflexivity; discriminate K).
    destruct (labelSuffix (label (data n))) as [k|]; [|reflexivity].
    destruct (getCount c (nodeType (data n)) <=? k)%N; [|reflexivity].
    now rewrite getCount_setCount, K'.
Qed.

Lemma reconstructLoadStep_count c n t :
  getCount (reconstructLoadStep c n) t
  = if NodeType_eqb (nodeType (data n)) t
    then match labelSuffix (label (data n)) with
         | Some k => N.max (getCount c t) k
         | None => N.max (getCount c t) 1
         end
    else getCount c t.
Proof.
  unfold reconstructLoadStep.
  destruct (NodeType_eqb (nodeType (data n)) t) eqn:K.
  - apply NodeType_eqb_eq in K. subst t.
    destruct (labelSuffix (label (data n))) as [k|].
    + destruct (N.leb_spec (getCount c (nodeType (data n))) k).
      * rewrite getCount_setCount.
        replace (NodeType_eqb (nodeType (data n)) (nodeType (data n))) with true
          by (symmetry; now apply NodeType_eqb_eq). lia.
      * lia.
    + rewrite getCount_setCount.
      replace (NodeType_eqb (nodeType (data n)) (nodeType (data n))) with true
        by (symmetry; now apply NodeType_eqb_eq). reflexivity.
  - assert (K' : NodeType_eqb t (nodeType (data n)) = false)
      by (destruct t, (nodeType (data n)); try reflexivity; discriminate K).
    destruct (labelSuffix (label (data n))) as [k|].
    + destruct (getCount c (nodeType (data n)) <=? k)%N; [|reflexivity].
      now rewrite getCount_setCount, K'.
    + now rewrite getCount_setCount, K'.
Qed.

Lemma fold_import_count nds t :
  forall c,
    getCount (fold_left reconstructImportStep nds c) t
    = N.max (getCount c t) (maxOf (suffixesOf t nds)).
Proof.
  induction nds as [|n nds IH]; intro c; cbn [fold_left suffixesOf flat_map maxOf fold_right].
  - lia.
  - rewrite IH, reconstructImportStep_count. fold (suffixesOf t nds).
    unfold maxOf. rewrite fold_right_app. fold (maxOf (suffixesOf t nds)).
    destruct (NodeType_eqb (nodeType (data n)) t); cbn [fold_right]; [|reflexivity].
    destruct (labelSuffix (label (data n))); cbn [fold_right]; lia.
Qed.

Lemma fold_load_count nds t :
  forall c,
    getCount (fold_left reconstructLoadStep nds c) t
    = N.max (N.max (getCount c t) (maxOf (suffixesOf t nds)))
        (if hasUnnumbered t nds then 1 else 0)%N.
Proof.
  induction nds as [|n nds IH]; intro c;
    cbn [fold_left suffixesOf flat_map maxOf fold_right hasUnnumbered existsb].
  - lia.
  - rewrite IH, reconstructLoadStep_count. fold (suffixesOf t nds).
    fold (hasUnnumbered t nds).
    unfold maxOf. rewrite fold_right_app. fold (maxOf (suffixesOf t nds)).
    destruct (NodeType_eqb (nodeType (data n)) t); cbn [fold_right andb orb]; [|reflexivity].
    destruct (labelSuffix (label (data n))); cbn [fold_right orb];
      destruct (hasUnnumbered t nds); lia.
Qed.

(** X5.  The counters in closed form, for labels whose numbers are safe
    integers.  After [importFunnel] the counter of a kind is the largest of
    its initial value and the numbers that end the labels of the nodes of
    that kind; after the load effect it is that, and at least 1 when some
    node of the kind has a label without a number.  Neither depends on the
    order of the nodes, and the two differ only for a kind whose counter
    would otherwise be 0. *)
Theorem reconstructed_counters (nds : list FunnelNode) (t : NodeType) :
  safeLabels nds ->
  getCount (reconstructImport nds) t
  = N.max (getCount createLabelCounter t) (maxOf (suffixesOf t nds)) /\
  getCount (reconstructLoad nds) t
  = N.max (getCount (reconstructImport nds) t)
      (if hasUnnumbered t nds then 1 else 0)%N.
Proof.
  intros _. unfold reconstructImport, reconstructLoad.
  rewrite fold_load_count, fold_import_count. split; reflexivity.
Qed.

Lemma reconstructed_counters_witness :
  getCount (reconstructImport threeUpsells) upsell = 7%N /\
  getCount (reconstructLoad threeUpsells) upsell = 7%N.
Proof.
  assert (S : safeLabels threeUpsells).
  { intros n k [<-|[<-|[<-|[]]]] L; vm_compute in L;
      try discriminate L; apply Some_inj in L; subst k; vm_compute; discriminate. }
  destruct (@reconstructed_counters threeUpsells upsell S) as (I & L).
  rewrite L, I. split; reflexivity.
Defined.

(** ** Undo and redo on a store at rest *)

Lemma undo_eq st :
  Inv st -> 0 < currentIndex st ->
  exists entry,
    arrayGet (history st) (currentIndex st - 1) = Some entry /\
    undo st
    = afterReplay
        (setEdges (s_edges entry)
           (setNodes (s_nodes entry)
              (setCurrentIndex (currentIndex st - 1) (setIsUndoRedoRef true st)))).
Proof.
  intros I P. pose proof (inv_idx I) as X.
  destruct (inv_settled I) as (Hi & Hl & Hu & Hv & Hr).
  destruct (@arrayGet_in_range _ (history st) (currentIndex st - 1)) as [entry E];
    [lia|].
  exists entry. split; [assumption|]. unfold undo.
  destruct (Z.leb_spec (currentIndex st) 0) as [C|_]; [lia|].
  rewrite E. apply rerender_replay; try assumption; try reflexivity.
  cbn. lia.
Qed.

Lemma redo_eq st :
  Inv st -> currentIndex st < Z.of_nat (List.length (history st)) - 1 ->
  exists entry,
    arrayGet (history st) (currentIndex st + 1) = Some entry /\
    redo st
    = afterReplay
        (setEdges (s_edges entry)
           (setNodes (s_nodes entry)
              (setCurrentIndex (currentIndex st + 1) (setIsUndoRedoRef true st)))).
Proof.
  intros I P. pose proof (inv_idx I) as X.
  destruct (inv_settled I) as (Hi & Hl & Hu & Hv & Hr).
  destruct (@arrayGet_in_range _ (history st) (currentIndex st + 1)) as [entry E];
    [lia|].
  exists entry. split; [assumption|]. unfold redo.
  destruct (Z.leb_spec (Z.of_nat (List.length (history st)) - 1) (currentIndex st))
    as [C|_]; [lia|].
  rewrite E. apply rerender_replay; try assumption; try reflexivity.
  cbn. lia.
Qed.

Lemma replay_tracked st i entry :
  Inv st -> 0 <= i < Z.of_nat (List.length (history st)) ->
  arrayGet (history st) i = Some entry ->
  Tracked (afterReplay
             (setEdges (s_edges entry)
                (setNodes (s_nodes entry)
                   (setCurrentIndex i (setIsUndoRedoRef true st))))).
Proof.
  intros I R E. split; [|split].
  - split; cbn; try apply I; try assumption. repeat split.
  - exists entry. cbn. split; [assumption|]. split; [reflexivity|now left].
  - reflexivity.
Qed.

Lemma undo_tracked st : Tracked st -> Tracked (undo st).
Proof.
  intros T. pose proof T as (I & _ & _). pose proof (inv_idx I) as X.
  destruct (Z.leb_spec (currentIndex st) 0) as [C|C].
  - now rewrite undo_at_bottom.
  - destruct (undo_eq I C) as (entry & E & ->).
    apply replay_tracked; [assumption|lia|assumption].
Qed.

Lemma redo_tracked st : Tracked st -> Tracked (redo st).
Proof.
  intros T. pose proof T as (I & _ & _). pose proof (inv_idx I) as X.
  destruct (Z.leb_spec (Z.of_nat (List.length (history st)) - 1) (currentIndex st))
    as [C|C].
  - now rewrite redo_at_top.
  - destruct (redo_eq I C) as (entry & E & ->).
    apply replay_tracked; [assumption|lia|assumption].
Qed.

(** ** Drag gestures, move by move *)

Section DragMoves.

Variable applyNodeChanges : list NodeChange -> list FunnelNode -> list FunnelNode.

Lemma drag_move_eq st changes :
  settled st -> existsb isPositionChange changes = true ->
  onNodesChange applyNodeChanges changes st
  = afterDragMove (setNodes (applyNodeChanges changes (nodes st))
                     (setIsDraggingRef true st)).
Proof.
  intros (Hi & Hl & Hu & Hv & Hr) P. unfold onNodesChange. rewrite P.
  apply rerender_drag; try assumption; reflexivity.
Qed.

Lemma drag_move_mid st0 st changes :
  settled st ->
  (List.length (history st) <= MAX_HISTORY_SIZE)%nat ->
  0 <= currentIndex st < Z.of_nat (List.length (history st)) ->
  history st = history st0 -> currentIndex st = currentIndex st0 ->
  edges st = edges st0 -> labelCounts st = labelCounts st0 ->
  existsb isPositionChange changes = true ->
  MidDrag st0 (onNodesChange applyNodeChanges changes st) /\
  nodes (onNodesChange applyNodeChanges changes st)
  = applyNodeChanges changes (nodes st).
Proof.
  intros S B R Hh Hx He Hc P. rewrite (@drag_move_eq st changes S P).
  destruct S as (Hi & Hl & Hu & Hv & Hr).
  split; [|reflexivity].
  repeat split; cbn; try reflexivity; try assumption; apply R.
Qed.

Lemma drag_moves_mid st0 moves :
  forall st,
    MidDrag st0 st -> forallb (existsb isPositionChange) moves = true ->
    MidDrag st0 (fold_left (fun s cs => onNodesChange applyNodeChanges cs s) moves st) /\
    nodes (fold_left (fun s cs => onNodesChange applyNodeChanges cs s) moves st)
    = fold_left (fun nds cs => applyNodeChanges cs nds) moves (nodes st).
Proof.
  induction moves as [|changes moves IH]; intros st M F; cbn [fold_left].
  - now split.
  - cbn [forallb] in F. apply Bool.andb_true_iff in F. destruct F as [Fc Fm].
    destruct M as ((S & _ & _ & B & R) & Hh & Hx & He & Hc & _).
    destruct (@drag_move_mid st0 st changes S B R Hh Hx He Hc Fc) as (M' & N').
    destruct (IH _ M' Fm) as (M'' & N''). split; [assumption|].
    now rewrite N'', N'.
Qed.

(** The state in the middle of a gesture that started at rest. *)
Lemma drag_mid st changes moves :
  Inv st -> forallb (existsb isPositionChange) (changes :: moves) = true ->
  MidDrag st (fold_left (fun s cs => onNodesChange applyNodeChanges cs s)
                (changes :: moves) st) /\
  nodes (fold_left (fun s cs => onNodesChange applyNodeChanges cs s)
           (changes :: moves) st)
  = fold_left (fun nds cs => applyNodeChanges cs nds) (changes :: moves) (nodes st).
Proof.
  intros I F. cbn [fold_left forallb] in *.
  apply Bool.andb_true_iff in F. destruct F as [Fc Fm].
  destruct (@drag_move_mid st st changes (inv_settled I) (inv_len I) (inv_idx I)
              eq_refl eq_refl eq_refl eq_refl Fc) as (M & N).
  destruct (@drag_moves_mid st moves _ M Fm) as (M' & N'). split; [assumption|].
  now rewrite N', N.
Qed.

End DragMoves.

(** ** What a mutation leaves behind *)

Lemma next_truncates idx (h : list HistoryState) cur :
  0 <= idx < Z.of_nat (List.length h) -> idx + 1 < Z.of_nat MAX_HISTORY_SIZE ->
  nextHistoryAndIndex idx h cur = (firstn (Z.to_nat (idx + 1)) h ++ [cur], idx + 1).
Proof.
  intros R C. unfold nextHistoryAndIndex.
  pose proof (@slice0_length _ idx h R) as L.
  assert (S : slice0 (idx + 1) h = firstn (Z.to_nat (idx + 1)) h).
  { unfold slice0. destruct (Z.ltb_spec (idx + 1) 0); [lia|reflexivity]. }
  rewrite S in *.
  destruct (Nat.ltb_spec MAX_HISTORY_SIZE
              (List.length (firstn (Z.to_nat (idx + 1)) h ++ [cur]))) as [F|F];
    rewrite length_app in *; cbn [List.length] in *; [lia|].
  f_equal. lia.
Qed.

Lemma next_previous idx (h : list HistoryState) cur :
  0 <= idx < Z.of_nat (List.length h) -> (List.length h <= MAX_HISTORY_SIZE)%nat ->
  arrayGet (fst (nextHistoryAndIndex idx h cur)) (snd (nextHistoryAndIndex idx h cur) - 1)
  = arrayGet h idx.
Proof.
  intros R B. unfold MAX_HISTORY_SIZE in B.
  destruct (Z.ltb_spec (idx + 1) (Z.of_nat MAX_HISTORY_SIZE)) as [C|C].
  - rewrite (@next_truncates idx h cur R C). cbn [fst snd].
    replace (idx + 1 - 1) with idx by lia. unfold arrayGet.
    destruct (Z.ltb_spec idx 0); [lia|].
    rewrite nth_error_app1 by (rewrite length_firstn; lia).
    rewrite nth_error_firstn.
    destruct (Nat.ltb_spec (Z.to_nat idx) (Z.to_nat (idx + 1))); [reflexivity|lia].
  - unfold MAX_HISTORY_SIZE in C.
    rewrite (@next_evicts idx h cur) by (unfold MAX_HISTORY_SIZE; lia).
    cbn [fst snd]. unfold arrayGet, MAX_HISTORY_SIZE.
    replace idx with 49 by lia.
    change (Z.of_nat 50 - 1 - 1 <? 0) with false. change (49 <? 0) with false.
    cbv iota.
    change (Z.to_nat (Z.of_nat 50 - 1 - 1)) with 48%nat.
    change (Z.to_nat 49) with 49%nat.
    destruct h as [|a l]; [cbn in R; lia|]. cbn [tl List.length] in *.
    rewrite nth_error_app1 by lia. reflexivity.
Qed.

Lemma afterWrite_tracked de w :
  0 <= currentIndex w < Z.of_nat (List.length (history w)) ->
  (List.length (history w) <= MAX_HISTORY_SIZE)%nat ->
  dragDebounceTimerRef w = None ->
  Tracked (afterWrite de w).
Proof.
  intros R B T. destruct (@afterWrite_good de w R B T) as (I & _ & E).
  repeat split; try assumption; apply I.
Qed.

Lemma mount_tracked saved st : mount saved = Some st -> Tracked st.
Proof.
  intro H. destruct (@mount_good saved st H) as (I & _ & E).
  apply mount_eq in H. destruct H as (w & -> & _ & _).
  repeat split; try assumption; apply I.
Qed.

Section Sessions.

Variable applyNodeChanges : list NodeChange -> list FunnelNode -> list FunnelNode.
Variable applyEdgeChanges : list EdgeChange -> list FunnelEdge -> list FunnelEdge.
Variable addEdge : EdgeParams -> list FunnelEdge -> list FunnelEdge.

(** A mutation that keeps the history and takes effect pushes one
    snapshot on the history as it was, cut after the current index. *)
Lemma mutate_step st m st' :
  Inv st -> settles m = true -> keepsHistory m = true ->
  mutate applyNodeChanges applyEdgeChanges addEdge m st = Some st' ->
  st' = st
  \/ exists entry,
       history st' = fst (nextHistoryAndIndex (currentIndex st) (history st) entry) /\
       currentIndex st' = snd (nextHistoryAndIndex (currentIndex st) (history st) entry) /\
       s_edges entry = edges st' /\
       (nodes st' = s_nodes entry
        \/ nodes st' = validateNodes (edges st') (s_nodes entry)) /\
       Tracked st'.
Proof.
  intros I N K H.
  pose proof (inv_idx I) as X. pose proof (inv_len I) as B.
  pose proof (inv_timer I) as T.
  assert (W : forall de w,
             history w = history st -> currentIndex w = currentIndex st ->
             dragDebounceTimerRef w = None ->
             afterWrite de w = st \/
             exists entry,
               history (afterWrite de w)
               = fst (nextHistoryAndIndex (currentIndex st) (history st) entry) /\
               currentIndex (afterWrite de w)
               = snd (nextHistoryAndIndex (currentIndex st) (history st) entry) /\
               s_edges entry = edges (afterWrite de w) /\
               (nodes (afterWrite de w) = s_nodes entry
                \/ nodes (afterWrite de w)
                   = validateNodes (edges (afterWrite de w)) (s_nodes entry)) /\
               Tracked (afterWrite de w)).
  { intros de w Hh Hx Ht. right.
    assert (Tr : Tracked (afterWrite de w)) by (apply afterWrite_tracked; congruence).
    exists {| s_nodes := nodes w; s_edges := edges w |}.
    cbn [afterWrite history currentIndex edges nodes s_edges s_nodes].
    rewrite Hh, Hx. do 3 (split; [reflexivity|]).
    split; [destruct de; [now right|now left]|exact Tr]. }
  destruct m; cbn [mutate settles keepsHistory] in *; try discriminate K;
    apply Some_inj in H; subst st'.
  - rewrite addNode_eq by assumption. now apply W.
  - rewrite deleteNode_eq by assumption. now apply W.
  - rewrite deleteEdge_eq by assumption. now apply W.
  - destruct (onConnect_cases addEdge I connection) as [-> | ->]; [now left|].
    now apply W.
  - apply Bool.negb_true_iff in N. rewrite onNodesChange_eq by assumption. now apply W.
  - destruct moves as [|changes moves].
    + left. cbn [fold_left]. unfold dragTimerFires. now rewrite T.
    + right.
      destruct (@drag_mid applyNodeChanges st changes moves I N)
        as ((D & Hh & Hx & He & Hc & P) & _).
      destruct (@drag_gesture applyNodeChanges st changes moves I N) as ((I' & _ & E') & _).
      revert I' E'.
      set (mid := fold_left (fun s cs => onNodesChange applyNodeChanges cs s)
                    (changes :: moves) st) in *.
      pose proof D as (Hs & _ & Ht & _ & _).
      rewrite (dragTimerFires_eq Hs Ht). intros I' E'.
      exists {| s_nodes := nodes mid; s_edges := edges mid |}.
      cbn [afterTimer history currentIndex edges nodes s_edges s_nodes].
      rewrite Hh, Hx. repeat split; try assumption; try apply I'.
      now left.
  - rewrite onEdgesChange_eq by assumption. now apply W.
Qed.

Lemma mutate_tracked st m st' :
  Inv st -> Tracked st -> settles m = true ->
  mutate applyNodeChanges applyEdgeChanges addEdge m st = Some st' -> Tracked st'.
Proof.
  intros I T N H.
  destruct (keepsHistory m) eqn:K.
  - destruct (@mutate_step st m st' I N K H)
      as [-> | (entry & _ & _ & _ & _ & T')]; assumption.
  - destruct m; try discriminate K; cbn [mutate] in H.
    + destruct (importFunnel parsed st) as [b o] eqn:E. cbn [snd] in H. subst o.
      destruct (importFunnel_cases I _ E) as [(_ & ->) | (ns & es & lc & ->)];
        [assumption|].
      apply afterWrite_tracked; [cbn; lia|cbn; unfold MAX_HISTORY_SIZE; lia|apply I].
    + apply Some_inj in H. subst st'. rewrite clearFunnel_eq by assumption.
      apply afterWrite_tracked; [cbn; lia|cbn; unfold MAX_HISTORY_SIZE; lia|apply I].
Qed.

Lemma act_tracked st a st' :
  Tracked st -> settlesAction a = true ->
  act applyNodeChanges applyEdgeChanges addEdge a st = Some st' -> Tracked st'.
Proof.
  intros T N H. destruct a as [m| |]; cbn [act settlesAction] in *.
  - apply (@mutate_tracked st m st' (proj1 T) T N H).
  - apply Some_inj in H. subst st'. now apply undo_tracked.
  - apply Some_inj in H. subst st'. now apply redo_tracked.
Qed.

Lemma actAll_tracked acts :
  forall st st',
    Tracked st -> forallb settlesAction acts = true ->
    actAll applyNodeChanges applyEdgeChanges addEdge acts st = Some st' -> Tracked st'.
Proof.
  induction acts as [|a acts IH]; intros st st' T N H; cbn [actAll] in H.
  - apply Some_inj in H. now subst.
  - cbn [forallb] in N. apply Bool.andb_true_iff in N. destruct N as [Na Nas].
    destruct (act applyNodeChanges applyEdgeChanges addEdge a st) as [st1|] eqn:E;
      cbn [bind] in H; [|discriminate].
    apply (IH st1 st'); try assumption. apply (@act_tracked st a st1 T Na E).
Qed.

Lemma play_tracked saved acts st :
  forallb settlesAction acts = true ->
  play applyNodeChanges applyEdgeChanges addEdge saved acts = Some st -> Tracked st.
Proof.
  unfold play. intros N H.
  destruct (mount saved) as [st0|] eqn:M; cbn [bind] in H; [|discriminate].
  apply (@actAll_tracked acts st0 st (@mount_tracked saved st0 M) N H).
Qed.

End Sessions.

(** ** Sessions with undo and redo *)

(** X6.  Whatever the user does after the funnel has loaded (mutations,
    each drag having settled, undo and redo in any order), the store comes
    to rest with no flag pending, a history of at least one and at most 50
    entries, the index inside it, and the index ref equal to the index. *)
Theorem history_index_in_range_with_undo_redo
  applyNodeChanges applyEdgeChanges addEdge saved acts st :
  forallb settlesAction acts = true ->
  play applyNodeChanges applyEdgeChanges addEdge saved acts = Some st ->
  (1 <= List.length (history st) <= MAX_HISTORY_SIZE)%nat /\
  0 <= currentIndex st < Z.of_nat (List.length (history st)) /\
  currentIndexRef st = currentIndex st /\
  isUndoRedoRef st = false /\ isValidationUpdateRef st = false /\
  isInitialLoadRef st = false /\ isDraggingRef st = false /\
  dragDebounceTimerRef st = None.
Proof.
  intros N H.
  destruct (@play_tracked applyNodeChanges applyEdgeChanges addEdge saved acts st N H)
    as (I & _ & _).
  pose proof (inv_idx I) as X. pose proof (inv_len I) as B.
  destruct (inv_settled I) as (_ & L & U & V & R).
  repeat split; try assumption; try apply I; lia.
Qed.

Lemma history_index_in_range_with_undo_redo_witness :
  exists st,
    libPlay Absent addUndoDeleteRedo = Some st /\
    List.length (history st) = 2%nat /\ currentIndex st = 1.
Proof.
  destruct (libPlay Absent addUndoDeleteRedo) as [st|] eqn:E.
  - exists st. split; [reflexivity|].
    pose proof (@history_index_in_range_with_undo_redo
                  libApplyNodeChanges libApplyEdgeChanges libAddEdge
                  Absent addUndoDeleteRedo st eq_refl E) as (B & X & _).
    vm_compute in E. apply Some_inj in E. subst st. split; reflexivity.
  - vm_compute in E. discriminate E.
Defined.

(** X7.  The undo and redo buttons are enabled exactly when the handlers
    do something: with [canUndo] false [undo] leaves the store as it is, and
    with [canUndo] true it moves the index down by one and shows the edges
    of that entry; likewise [canRedo] and [redo], one up.  Neither changes
    the history. *)
Theorem buttons_agree_with_handlers
  applyNodeChanges applyEdgeChanges addEdge saved acts st :
  forallb settlesAction acts = true ->
  play applyNodeChanges applyEdgeChanges addEdge saved acts = Some st ->
  (canUndo st = false -> undo st = st) /\
  (canUndo st = true ->
   currentIndex (undo st) = currentIndex st - 1 /\ history (undo st) = history st /\
   exists entry, arrayGet (history st) (currentIndex st - 1) = Some entry /\
                 edges (undo st) = s_edges entry) /\
  (canRedo st = false -> redo st = st) /\
  (canRedo st = true ->
   currentIndex (redo st) = currentIndex st + 1 /\ history (redo st) = history st /\
   exists entry, arrayGet (history st) (currentIndex st + 1) = Some entry /\
                 edges (redo st) = s_edges entry).
Proof.
  intros N H.
  destruct (@play_tracked applyNodeChanges applyEdgeChanges addEdge saved acts st N H)
    as (I & _ & _).
  unfold canUndo, canRedo. split; [|split; [|split]].
  - intro C. apply Z.ltb_ge in C. now apply undo_at_bottom.
  - intro C. apply Z.ltb_lt in C. destruct (undo_eq I C) as (entry & E & ->).
    split; [reflexivity|]. split; [reflexivity|]. exists entry. now split.
  - intro C. apply Z.ltb_ge in C. now apply redo_at_top.
  - intro C. apply Z.ltb_lt in C. destruct (redo_eq I C) as (entry & E & ->).
    split; [reflexivity|]. split; [reflexivity|]. exists entry. now split.
Qed.

Lemma buttons_agree_with_handlers_witness :
  exists st,
    libPlay Absent addUndoDeleteRedo = Some st /\
    canUndo st = true /\ currentIndex (undo st) = 0 /\ redo st = st.
Proof.
  destruct (libPlay Absent addUndoDeleteRedo) as [st|] eqn:E.
  - exists st. split; [reflexivity|].
    pose proof (@buttons_agree_with_handlers
                  libApplyNodeChanges libApplyEdgeChanges libAddEdge
                  Absent addUndoDeleteRedo st eq_refl E) as (_ & U & R & _).
    assert (CU : canUndo st = true /\ canRedo st = false /\ currentIndex st = 1).
    { vm_compute in E. apply Some_inj in E. subst st. repeat split. }
    destruct CU as (CU & CR & X).
    split; [exact CU|]. split; [|exact (R CR)].
    destruct (U CU) as (D & _). rewrite D, X. reflexivity.
  - vm_compute in E. discriminate E.
Defined.

(** X8.  Every mutation that takes effect leaves the index on the latest
    history entry, with at least one entry below it: undo is enabled and
    redo is disabled, wherever in the history the store stood before. *)
Theorem mutation_enables_undo_disables_redo
  applyNodeChanges applyEdgeChanges addEdge saved acts m st st' :
  forallb settlesAction acts = true -> settles m = true ->
  play applyNodeChanges applyEdgeChanges addEdge saved acts = Some st ->
  mutate applyNodeChanges applyEdgeChanges addEdge m st = Some st' ->
  st' = st \/ (canUndo st' = true /\ canRedo st' = false).
Proof.
  intros N Nm H Hm.
  destruct (@play_tracked applyNodeChanges applyEdgeChanges addEdge saved acts st N H)
    as (I & _ & _).
  assert (F : forall idx (h : list HistoryState) cur,
             0 <= idx < Z.of_nat (List.length h) ->
             (List.length h <= MAX_HISTORY_SIZE)%nat ->
             (0 <? snd (nextHistoryAndIndex idx h cur)) = true /\
             (snd (nextHistoryAndIndex idx h cur)
              <? Z.of_nat (List.length (fst (nextHistoryAndIndex idx h cur))) - 1) = false).
  { intros idx h cur R B.
    pose proof (@next_index_positive idx h cur R B).
    pose proof (@next_index_latest idx h cur R B).
    split; [apply Z.ltb_lt|apply Z.ltb_ge]; lia. }
  destruct (keepsHistory m) eqn:K.
  - destruct (@mutate_step applyNodeChanges applyEdgeChanges addEdge st m st' I Nm K Hm)
      as [-> | (entry & Hh & Hx & _)]; [now left|right].
    unfold canUndo, canRedo. rewrite Hh, Hx. apply F; apply I.
  - destruct m; try discriminate K; cbn [mutate] in Hm.
    + destruct (importFunnel parsed st) as [b o] eqn:E. cbn [snd] in Hm. subst o.
      destruct (importFunnel_cases I _ E) as [(_ & ->) | (ns & es & lc & ->)];
        [now left|right].
      split; reflexivity.
    + apply Some_inj in Hm. subst st'. rewrite clearFunnel_eq by assumption.
      right. split; reflexivity.
Qed.

Lemma mutation_enables_undo_disables_redo_witness :
  exists st st',
    libPlay Absent [Mutate (MDeleteEdge "e-sales-order"); Undo] = Some st /\
    mutate libApplyNodeChanges libApplyEdgeChanges libAddEdge
      (MAddNode upsell {| px := 400; py := 300 |} 1700000000000) st = Some st' /\
    canRedo st = true /\ canRedo st' = false /\ canUndo st' = true.
Proof.
  destruct (libPlay Absent [Mutate (MDeleteEdge "e-sales-order"); Undo]) as [st|] eqn:E;
    [|vm_compute in E; discriminate E].
  exists st. eexists. split; [reflexivity|]. split; [reflexivity|].
  destruct (@mutation_enables_undo_disables_redo
              libApplyNodeChanges libApplyEdgeChanges libAddEdge
              Absent [Mutate (MDeleteEdge "e-sales-order"); Undo]
              (MAddNode upsell {| px := 400; py := 300 |} 1700000000000)
              st _ eq_refl eq_refl E eq_refl) as [S | (U & R)].
  - exfalso. apply (f_equal (fun s => List.length (nodes s))) in S.
    vm_compute in E. apply Some_inj in E. subst st. vm_compute in S. discriminate S.
  - split; [|split; assumption].
    vm_compute in E. apply Some_inj in E. subst st. reflexivity.
Defined.

(** X9.  A mutation made while the index is below 49, as it is after any
    undo, drops the entries that could have been redone.  For every
    mutation but import and clear the history becomes the entries up to the
    one shown, followed by one snapshot holding the edges of the new state
    and its nodes as the handler wrote them, and the index moves up by one.
    [importFunnel] and [clearFunnel] replace the whole history instead: it
    becomes two copies of the funnel they wrote, with the index at 1. *)
Theorem mutation_drops_redo_branch
  applyNodeChanges applyEdgeChanges addEdge saved acts m st st' :
  forallb settlesAction acts = true -> settles m = true ->
  play applyNodeChanges applyEdgeChanges addEdge saved acts = Some st ->
  mutate applyNodeChanges applyEdgeChanges addEdge m st = Some st' ->
  currentIndex st + 1 < Z.of_nat MAX_HISTORY_SIZE ->
  st' = st
  \/ (keepsHistory m = true /\
      exists entry,
        history st' = firstn (Z.to_nat (currentIndex st + 1)) (history st) ++ [entry] /\
        currentIndex st' = currentIndex st + 1 /\
        s_edges entry = edges st' /\
        (nodes st' = s_nodes entry
         \/ nodes st' = validateNodes (edges st') (s_nodes entry)))
  \/ (keepsHistory m = false /\
      exists written,
        history st' = [written; written] /\ currentIndex st' = 1 /\
        edges st' = s_edges written /\
        nodes st' = validateNodes (s_edges written) (s_nodes written)).
Proof.
  intros N Nm H Hm C.
  destruct (@play_tracked applyNodeChanges applyEdgeChanges addEdge saved acts st N H)
    as (I & _ & _).
  destruct (keepsHistory m) eqn:K.
  - destruct (@mutate_step applyNodeChanges applyEdgeChanges addEdge st m st' I Nm K Hm)
      as [-> | (entry & Hh & Hx & He & Hn & _)]; [now left|right; left].
    rewrite (@next_truncates (currentIndex st) (history st) entry (inv_idx I) C)
      in Hh, Hx.
    split; [reflexivity|]. exists entry. repeat split; assumption.
  - destruct m; try discriminate K; cbn [mutate] in Hm.
    + destruct (importFunnel parsed st) as [b o] eqn:E. cbn [snd] in Hm. subst o.
      destruct (importFunnel_cases I _ E) as [(_ & ->) | (ns & es & lc & ->)];
        [now left|right; right].
      split; [reflexivity|].
      exists {| s_nodes := ns; s_edges := es |}. repeat split.
    + apply Some_inj in Hm. subst st'. rewrite clearFunnel_eq by assumption.
      right; right. split; [reflexivity|].
      exists {| s_nodes := []; s_edges := [] |}. repeat split.
Qed.

Lemma mutation_drops_redo_branch_witness :
  exists st st',
    libPlay Absent [Mutate (MDeleteEdge "e-sales-order"); Undo] = Some st /\
    mutate libApplyNodeChanges libApplyEdgeChanges libAddEdge
      (MAddNode upsell {| px := 400; py := 300 |} 1700000000000) st = Some st' /\
    List.length (history st) = 2%nat /\ currentIndex st = 0 /\
    List.length (history st') = 2%nat /\ currentIndex st' = 1 /\
    arrayGet (history st') 0 = arrayGet (history st) 0.
Proof.
  destruct (libPlay Absent [Mutate (MDeleteEdge "e-sales-order"); Undo]) as [st|] eqn:E;
    [|vm_compute in E; discriminate E].
  exists st. eexists. split; [reflexivity|]. split; [reflexivity|].
  assert (X : List.length (history st) = 2%nat /\ currentIndex st = 0)
    by (vm_compute in E; apply Some_inj in E; subst st; split; reflexivity).
  destruct X as (L & X).
  assert (C : currentIndex st + 1 < Z.of_nat MAX_HISTORY_SIZE)
    by (rewrite X; reflexivity).
  destruct (@mutation_drops_redo_branch
              libApplyNodeChanges libApplyEdgeChanges libAddEdge
              Absent [Mutate (MDeleteEdge "e-sales-order"); Undo]
              (MAddNode upsell {| px := 400; py := 300 |} 1700000000000)
              st _ eq_refl eq_refl E eq_refl C)
    as [S | [(_ & entry & Hh & Hx & _) | (K & _)]]; [| |discriminate K].
  - exfalso. apply (f_equal (fun s => List.length (nodes s))) in S.
    vm_compute in E. apply Some_inj in E. subst st. vm_compute in S. discriminate S.
  - rewrite Hh, Hx, X. repeat split; try assumption.
    + rewrite length_app, length_firstn, L. reflexivity.
    + destruct (history st) as [|a [|b l]]; try discriminate L. reflexivity.
Defined.



(** ** Drags *)

(** X11.  A drag is one history entry, however many pointer moves it
    takes.  While the pointer moves, every call of [onNodesChange] carrying
    a position saves the new nodes but leaves history and index alone; when
    the debounce timer fires, one snapshot of the final positions is pushed
    on the history as it was before the gesture. *)
Theorem drag_is_one_snapshot applyNodeChanges st changes moves :
  Inv st -> forallb (existsb isPositionChange) (changes :: moves) = true ->
  let mid := fold_left (fun s cs => onNodesChange applyNodeChanges cs s)
               (changes :: moves) st in
  let final := {| s_nodes := nodes mid; s_edges := edges st |} in
  nodes mid = fold_left (fun nds cs => applyNodeChanges cs nds)
                (changes :: moves) (nodes st) /\
  edges mid = edges st /\
  history mid = history st /\ currentIndex mid = currentIndex st /\
  localStorage mid = Some final /\
  nodes (dragTimerFires mid) = nodes mid /\
  edges (dragTimerFires mid) = edges st /\
  history (dragTimerFires mid)
  = fst (nextHistoryAndIndex (currentIndex st) (history st) final) /\
  currentIndex (dragTimerFires mid)
  = snd (nextHistoryAndIndex (currentIndex st) (history st) final).
Proof.
  intros I F.
  destruct (@drag_mid applyNodeChanges st changes moves I F)
    as ((D & Hh & Hx & He & Hc & P) & Hn).
  cbv zeta.
  set (mid := fold_left (fun s cs => onNodesChange applyNodeChanges cs s)
                (changes :: moves) st) in *.
  pose proof D as (Hs & _ & Ht & _ & _).
  rewrite (@dragTimerFires_eq mid _ Hs Ht).
  cbn [afterTimer nodes edges history currentIndex].
  unfold Persisted in P. rewrite <- He, Hh, Hx.
  repeat split; assumption.
Qed.

Lemma drag_is_one_snapshot_witness :
  let mid := fold_left (fun s cs => onNodesChange libApplyNodeChanges cs s)
               [moveOrder 300 300; moveOrder 380 310; moveOrder 450 320] defaultStore in
  history mid = history defaultStore /\
  List.length (history (dragTimerFires mid)) = 2%nat.
Proof.
  pose proof (@drag_is_one_snapshot libApplyNodeChanges defaultStore
                (moveOrder 300 300) [moveOrder 380 310; moveOrder 450 320]
                (proj1 defaultStore_good) eq_refl) as H.
  cbv zeta in *. destruct H as (_ & _ & Hh & _ & _ & _ & _ & Hf & _).
  split; [exact Hh|]. rewrite Hf. reflexivity.
Defined.

(** ** Persistence *)

(** X12.  Whenever the store is at rest, [localStorage] holds exactly the
    nodes and edges the store shows: every mutation, every drag, every undo
    and redo, and the rewrite of the validation pass are saved. *)
Theorem storage_holds_current_state
  applyNodeChanges applyEdgeChanges addEdge saved acts st :
  forallb settlesAction acts = true ->
  play applyNodeChanges applyEdgeChanges addEdge saved acts = Some st ->
  localStorage st = Some {| s_nodes := nodes st; s_edges := edges st |}.
Proof.
  intros N H.
  now destruct (@play_tracked applyNodeChanges applyEdgeChanges addEdge saved acts st N H)
    as (_ & _ & P).
Qed.

Lemma storage_holds_current_state_witness :
  exists st,
    libPlay Absent addUndoDeleteRedo = Some st /\
    localStorage st = Some {| s_nodes := nodes st; s_edges := edges st |}.
Proof.
  destruct (libPlay Absent addUndoDeleteRedo) as [st|] eqn:E.
  - exists st. split; [reflexivity|].
    exact (@storage_holds_current_state
             libApplyNodeChanges libApplyEdgeChanges libAddEdge
             Absent addUndoDeleteRedo st eq_refl E).
  - vm_compute in E. discriminate E.
Defined.

(** ** Reading back what was written *)











(** ** Loading *)

(** X15.  However the funnel was loaded, the store starts at rest with a
    history of exactly one entry, the state as loaded, at index 0: neither
    undo nor redo is available.  The nodes shown are the loaded ones with
    their warnings computed, and that state has been saved. *)
Theorem mount_starts_history (saved : StoredItem) (st : Store) :
  mount saved = Some st ->
  exists loaded,
    history st = [loaded] /\ currentIndex st = 0 /\
    canUndo st = false /\ canRedo st = false /\
    edges st = s_edges loaded /\
    nodes st = validateNodes (s_edges loaded) (s_nodes loaded) /\
    localStorage st = Some {| s_nodes := nodes st; s_edges := edges st |}.
Proof.
  intro H. apply mount_eq in H. destruct H as (w & -> & _ & _).
  exists {| s_nodes := nodes w; s_edges := edges w |}. repeat split.
Qed.

Lemma mount_starts_history_witness :
  exists loaded, history defaultStore = [loaded] /\ canUndo defaultStore = false.
Proof.
  destruct (@mount_starts_history Absent defaultStore mount_default)
    as (loaded & Hh & _ & U & _).
  exists loaded. split; assumption.
Defined.

Lemma mount_fallback (saved : StoredItem) :
  loadFails saved = true -> mount saved = Some defaultStore.
Proof.
  intro F. unfold mount, loadFails in *.
  destruct saved as [| |v]; try exact mount_default.
  destruct (getProp (Some v) "nodes") as [|jn]; [exact mount_default|].
  destruct (getProp (Some v) "edges") as [|je]; [exact mount_default|].
  apply Bool.negb_true_iff in F. rewrite F. exact mount_default.
Qed.

(** X16.  When nothing is stored, the stored text does not parse, the
    parsed value is [null], or the label loop throws on its nodes, the
    store falls back to the default funnel of three nodes and two edges,
    with the initial label counters. *)
Theorem mount_falls_back_to_default (saved : StoredItem) :
  loadFails saved = true ->
  mount saved = Some defaultStore /\
  map id (nodes defaultStore) = ["sales-1"; "order-1"; "thankyou-1"] /\
  edges defaultStore = initialEdges /\
  labelCounts defaultStore = createLabelCounter.
Proof.
  intro F. split; [now apply mount_fallback|repeat split].
Qed.

Lemma mount_falls_back_to_default_witness :
  mount (Parsed nodeWithoutData) = Some defaultStore.
Proof. apply (@mount_falls_back_to_default (Parsed nodeWithoutData) eq_refl). Defined.

(** ** Adding and deleting *)

Lemma rerender_drag_edges before w dn :
  isInitialized before = true ->
  isInitialized w = true -> isInitialLoadRef w = false ->
  isUndoRedoRef w = false -> isValidationUpdateRef w = false ->
  isDraggingRef w = true ->
  currentIndexRef w = currentIndex before ->
  currentIndex w = currentIndex before ->
  rerender before dn true w = afterDragEdges w.
Proof.
  intros Hb Hi Hl Hu Hv Hd Hr Hx.
  open_store w; subst. open_store before; subst.
  unfold afterDragEdges, rerender, flush.
  cbv [isInitialized currentIndex Bool.eqb negb].
  destruct dn; run_renders; reflexivity.
Qed.

(** X17.  [addNode] appends one node and touches nothing else, on every
    store whose renders have completed: the nodes already there keep their
    fields, warnings included, and no validation pass runs, so the new node
    carries no warning fields; the edges stay; only the counter of the kind
    added goes up, by one; the new state is saved.  When no drag is under
    way it becomes the history entry the index points at; when one is
    ([isDraggingRef] set by the last pointer move) the history is left
    alone and the debounce timer is armed again, on the new state.  The
    counter and [Date.now()] are safe integers. *)
Theorem addNode_appends_one_node (t : NodeType) (pos : Position) (now : N) (st : Store) :
  Quiet st ->
  (getCount (labelCounts st) t < MAX_SAFE_INTEGER)%N ->
  (now <= MAX_SAFE_INTEGER)%N ->
  let count := (getCount (labelCounts st) t + 1)%N in
  let st' := addNode t pos now st in
  nodes st' = nodes st ++ [newNode t pos now count] /\
  edges st' = edges st /\
  (forall t', getCount (labelCounts st') t'
              = if NodeType_eqb t' t then count else getCount (labelCounts st) t') /\
  localStorage st' = Some {| s_nodes := nodes st'; s_edges := edges st' |} /\
  (isDraggingRef st = false ->
   arrayGet (history st') (currentIndex st')
   = Some {| s_nodes := nodes st'; s_edges := edges st' |} /\
   dragDebounceTimerRef st' = dragDebounceTimerRef st) /\
  (isDraggingRef st = true ->
   history st' = history st /\ currentIndex st' = currentIndex st /\
   dragDebounceTimerRef st'
   = Some {| s_nodes := nodes st'; s_edges := edges st' |}).
Proof.
  intros ((Hi & Hl & Hu & Hv & Hr) & B & R) _ _. cbv zeta. unfold addNode.
  destruct (isDraggingRef st) eqn:Hd.
  - rewrite rerender_drag; try assumption; try reflexivity.
    cbn [afterDragMove nodes edges labelCounts localStorage history currentIndex
         dragDebounceTimerRef setLabelCounts setNodes].
    split; [reflexivity|]. split; [reflexivity|].
    split; [intro t'; apply getCount_setCount|]. split; [reflexivity|]. split.
    + discriminate.
    + intros _. repeat split.
  - rewrite rerender_write; try assumption; try reflexivity.
    cbn [afterWrite nodes edges labelCounts localStorage history currentIndex
         dragDebounceTimerRef setLabelCounts setNodes].
    split; [reflexivity|]. split; [reflexivity|].
    split; [intro t'; apply getCount_setCount|]. split; [reflexivity|]. split.
    + intros _. split; [|reflexivity]. apply next_entry; assumption.
    + discriminate.
Qed.

Lemma addNode_appends_one_node_witness :
  map (fun n => label (data n))
    (nodes (addNode upsell {| px := 400; py := 300 |} 1700000000000 defaultStore))
  = ["Sales Page"; "Order Page"; "Thank You"; "Upsell 1"]
  /\ map (fun n => label (data n))
       (nodes (addNode upsell {| px := 400; py := 300 |} 1700000000000 midDrag))
     = ["Sales Page"; "Order Page"; "Thank You"; "Upsell 1"]
  /\ history (addNode upsell {| px := 400; py := 300 |} 1700000000000 midDrag)
     = history midDrag.
Proof.
  assert (Q0 : Quiet defaultStore).
  { destruct defaultStore_good as (I & _).
    split; [apply I|]. split; [apply I|apply I]. }
  assert (Q1 : Quiet midDrag).
  { destruct (@drag_move libApplyNodeChanges defaultStore (moveOrder 300 300))
      as ((S & _ & _ & B & R) & _); try apply defaultStore_good; try reflexivity.
    split; [exact S|]. split; [exact B|exact R]. }
  destruct (@addNode_appends_one_node upsell {| px := 400; py := 300 |} 1700000000000
              defaultStore Q0)
    as (Hn & _); [vm_compute; reflexivity|vm_compute; discriminate|].
  destruct (@addNode_appends_one_node upsell {| px := 400; py := 300 |} 1700000000000
              midDrag Q1)
    as (Hm & _ & _ & _ & _ & Hh); [vm_compute; reflexivity|vm_compute; discriminate|].
  cbv zeta in *. rewrite Hn, Hm. destruct (Hh eq_refl) as (Hy & _).
  split; [reflexivity|]. split; [reflexivity|exact Hy].
Defined.

Lemma filter_ext_in_bool {A} (f : A -> bool) (l : list A) :
  (forall x, In x l -> f x = true) -> filter f l = l.
Proof.
  intro H. induction l as [|a l IH]; [reflexivity|]. cbn [filter].
  rewrite (H a) by now left. f_equal. apply IH. intros x X. apply H. now right.
Qed.

Lemma validateNodes_ids es nds : map id (validateNodes es nds) = map id nds.
Proof.
  unfold validateNodes. rewrite map_map. apply map_ext. intro n. apply validateNode_id.
Qed.

(** X18.  [deleteNode] removes the node and every edge that starts or ends
    at it, and nothing else: the remaining edges keep their order, the
    remaining nodes are revalidated against them, no edge is left hanging
    on the deleted id, and if every edge joined two nodes of the funnel
    before, that still holds afterwards. *)
Theorem deleteNode_leaves_no_dangling_edge (nodeId : string) (st : Store) :
  Inv st ->
  let kept := withoutNode nodeId {| s_nodes := nodes st; s_edges := edges st |} in
  let st' := deleteNode nodeId st in
  edges st' = s_edges kept /\
  nodes st' = validateNodes (s_edges kept) (s_nodes kept) /\
  ~ In nodeId (map id (nodes st')) /\
  (forall e, In e (edges st') -> source e <> nodeId /\ target e <> nodeId) /\
  (edgesClosed (nodes st) (edges st) -> edgesClosed (nodes st') (edges st')).
Proof.
  intro I. cbv zeta. rewrite (deleteNode_eq I).
  cbn [afterWrite nodes edges setEdges setNodes withoutNode s_nodes s_edges].
  split; [reflexivity|]. split; [reflexivity|].
  assert (E : forall e,
             In e (filter (fun e => negb (String.eqb (source e) nodeId)
                                    && negb (String.eqb (target e) nodeId)) (edges st)) ->
             In e (edges st) /\ source e <> nodeId /\ target e <> nodeId).
  { intros e X. apply filter_In in X. destruct X as [X B].
    apply Bool.andb_true_iff in B. destruct B as [B1 B2].
    apply Bool.negb_true_iff in B1, B2.
    apply String.eqb_neq in B1, B2. now repeat split. }
  split; [|split].
  - rewrite validateNodes_ids. intro X. apply in_map_iff in X.
    destruct X as (n & Hn & X). apply filter_In in X. destruct X as [_ B].
    apply Bool.negb_true_iff, String.eqb_neq in B. contradiction.
  - intros e X. now apply E.
  - intros C e X. rewrite validateNodes_ids. apply E in X. destruct X as (X & S & T).
    destruct (C e X) as (Cs & Ct).
    assert (K : forall i, i <> nodeId -> In i (map id (nodes st)) ->
                          In i (map id (filter (fun n => negb (String.eqb (id n) nodeId))
                                          (nodes st)))).
    { intros i D M. apply in_map_iff in M. destruct M as (n & <- & M).
      apply in_map. apply filter_In. split; [assumption|].
      now apply Bool.negb_true_iff, String.eqb_neq. }
    split; now apply K.
Qed.

Lemma deleteNode_leaves_no_dangling_edge_witness :
  edges (deleteNode "order-1" defaultStore) = [] /\
  map id (nodes (deleteNode "order-1" defaultStore)) = ["sales-1"; "thankyou-1"].
Proof.
  destruct (@deleteNode_leaves_no_dangling_edge "order-1" defaultStore
              (proj1 defaultStore_good)) as (He & Hn & _).
  cbv zeta in *. rewrite He, Hn. split; reflexivity.
Defined.

(** X19.  The delete handlers write fresh arrays whether or not anything
    matches.  On every store whose renders have completed, deleting an
    edge id that no edge has, or a node id that no node has and no edge
    touches, leaves the edges as they are and the nodes as the validation
    pass leaves them.  When no drag is under way the handler still pushes a
    snapshot of that unchanged state, which enables undo; when one is
    ([isDraggingRef] set by the last pointer move) it pushes nothing and
    only arms the debounce timer again, on the unchanged state. *)
Theorem delete_of_absent_id_writes_anyway (someId : string) (st : Store) :
  Quiet st ->
  (forall e, In e (edges st) ->
             eid e <> someId /\ source e <> someId /\ target e <> someId) ->
  (forall n, In n (nodes st) -> id n <> someId) ->
  let unchanged := {| s_nodes := nodes st; s_edges := edges st |} in
  (edges (deleteEdge someId st) = edges st /\
   nodes (deleteEdge someId st) = validateNodes (edges st) (nodes st) /\
   edges (deleteNode someId st) = edges st /\
   nodes (deleteNode someId st) = validateNodes (edges st) (nodes st)) /\
  (isDraggingRef st = false ->
   arrayGet (history (deleteEdge someId st)) (currentIndex (deleteEdge someId st))
   = Some unchanged /\
   canUndo (deleteEdge someId st) = true /\
   arrayGet (history (deleteNode someId st)) (currentIndex (deleteNode someId st))
   = Some unchanged /\
   canUndo (deleteNode someId st) = true) /\
  (isDraggingRef st = true ->
   history (deleteEdge someId st) = history st /\
   currentIndex (deleteEdge someId st) = currentIndex st /\
   dragDebounceTimerRef (deleteEdge someId st) = Some unchanged /\
   history (deleteNode someId st) = history st /\
   currentIndex (deleteNode someId st) = currentIndex st /\
   dragDebounceTimerRef (deleteNode someId st) = Some unchanged).
Proof.
  intros ((Hi & Hl & Hu & Hv & Hr) & B & R) He Hn. cbv zeta.
  assert (F1 : filter (fun e => negb (String.eqb (eid e) someId)) (edges st) = edges st).
  { apply filter_ext_in_bool. intros e X.
    apply Bool.negb_true_iff, String.eqb_neq. now apply He. }
  assert (F2 : filter (fun e => negb (String.eqb (source e) someId)
                                && negb (String.eqb (target e) someId)) (edges st)
               = edges st).
  { apply filter_ext_in_bool. intros e X. destruct (He e X) as (_ & S & T).
    apply Bool.andb_true_iff. split; now apply Bool.negb_true_iff, String.eqb_neq. }
  assert (F3 : filter (fun n => negb (String.eqb (id n) someId)) (nodes st) = nodes st).
  { apply filter_ext_in_bool. intros n X.
    apply Bool.negb_true_iff, String.eqb_neq. now apply Hn. }
  unfold deleteEdge, deleteNode.
  destruct (isDraggingRef st) eqn:Hd.
  - rewrite !rerender_drag_edges; try assumption; try reflexivity.
    cbn [afterDragEdges nodes edges history currentIndex dragDebounceTimerRef
         setEdges setNodes].
    rewrite F1, F2, F3.
    split; [repeat split|]. split; [discriminate|]. intros _. repeat split.
  - rewrite !rerender_write; try assumption; try reflexivity.
    unfold canUndo.
    cbn [afterWrite nodes edges history currentIndex setEdges setNodes].
    rewrite F1, F2, F3.
    pose proof (@next_index_positive (currentIndex st) (history st)
                  {| s_nodes := nodes st; s_edges := edges st |} R B) as P.
    pose proof (@next_entry (currentIndex st) (history st)
                  {| s_nodes := nodes st; s_edges := edges st |} R B) as E.
    split; [repeat split|]. split; [|discriminate].
    intros _. repeat split; try assumption; apply Z.ltb_lt; lia.
Qed.

Lemma delete_of_absent_id_writes_anyway_witness :
  (edges (deleteEdge "no-such-id" defaultStore) = initialEdges /\
   canUndo (deleteEdge "no-such-id" defaultStore) = true) /\
  (history (deleteEdge "no-such-id" midDrag) = history midDrag /\
   canUndo (deleteEdge "no-such-id" midDrag) = false).
Proof.
  assert (Q0 : Quiet defaultStore).
  { destruct defaultStore_good as (I & _).
    split; [apply I|]. split; [apply I|apply I]. }
  assert (Q1 : Quiet midDrag).
  { destruct (@drag_move libApplyNodeChanges defaultStore (moveOrder 300 300))
      as ((S & _ & _ & B & R) & _); try apply defaultStore_good; try reflexivity.
    split; [exact S|]. split; [exact B|exact R]. }
  assert (He : forall e, In e (edges defaultStore) ->
                         eid e <> "no-such-id" /\ source e <> "no-such-id"
                         /\ target e <> "no-such-id")
    by (intros e [<-|[<-|[]]]; repeat split; discriminate).
  assert (Hn : forall n, In n (nodes defaultStore) -> id n <> "no-such-id")
    by (intros n [<-|[<-|[<-|[]]]]; discriminate).
  assert (He' : forall e, In e (edges midDrag) ->
                          eid e <> "no-such-id" /\ source e <> "no-such-id"
                          /\ target e <> "no-such-id")
    by (intros e [<-|[<-|[]]]; repeat split; discriminate).
  assert (Hn' : forall n, In n (nodes midDrag) -> id n <> "no-such-id")
    by (intros n [<-|[<-|[<-|[]]]]; discriminate).
  destruct (@delete_of_absent_id_writes_anyway "no-such-id" defaultStore Q0 He Hn)
    as ((E & _) & R & _).
  destruct (@delete_of_absent_id_writes_anyway "no-such-id" midDrag Q1 He' Hn')
    as (_ & _ & G).
  destruct (R eq_refl) as (_ & U & _).
  destruct (G eq_refl) as (Hh & Hx & _).
  split; [split; assumption|]. split; [exact Hh|].
  unfold canUndo. rewrite Hx. reflexivity.
Defined.

(** ** Clearing *)

Lemma clearFunnel_shape st :
  Inv st ->
  Inv (clearFunnel st) /\ history (clearFunnel st) = [emptyFunnel; emptyFunnel] /\
  currentIndex (clearFunnel st) = 1 /\
  nodes (clearFunnel st) = [] /\ edges (clearFunnel st) = [] /\
  labelCounts (clearFunnel st) = createLabelCounter /\
  localStorage (clearFunnel st) = Some emptyFunnel.
Proof.
  intro I. rewrite (clearFunnel_eq I). split; [|repeat split].
  apply afterWrite_tracked; [cbn; lia|cbn; unfold MAX_HISTORY_SIZE; lia|apply I].
Qed.

Lemma undo_in_cleared st :
  Inv st -> history st = [emptyFunnel; emptyFunnel] -> nodes st = [] -> edges st = [] ->
  Inv (undo st) /\ history (undo st) = [emptyFunnel; emptyFunnel] /\
  nodes (undo st) = [] /\ edges (undo st) = [].
Proof.
  intros I Hh Hn He. pose proof (inv_idx I) as X.
  destruct (Z.leb_spec (currentIndex st) 0) as [C|C].
  - rewrite undo_at_bottom by assumption.
    split; [assumption|]. split; [assumption|]. split; assumption.
  - destruct (undo_eq I C) as (entry & E & ->).
    assert (entry = emptyFunnel).
    { rewrite Hh in E, X. cbn [List.length] in X.
      replace (currentIndex st - 1) with 0 in E by lia.
      cbv in E. apply Some_inj in E. now subst entry. }
    subst entry. split; [|split; [assumption|split; reflexivity]].
    apply (@replay_tracked st (currentIndex st - 1) emptyFunnel I); [lia|].
    rewrite Hh in X |- *. cbn [List.length] in X.
    replace (currentIndex st - 1) with 0 by lia. reflexivity.
Qed.

(** X20.  Clearing cannot be undone.  After [clearFunnel] the canvas, the
    storage and the label counters are those of an empty funnel, and
    although the undo button is enabled, no number of undos brings a node
    or an edge back. *)
Theorem clear_cannot_be_undone (st : Store) (k : nat) :
  Inv st ->
  canUndo (clearFunnel st) = true /\
  localStorage (clearFunnel st) = Some emptyFunnel /\
  labelCounts (clearFunnel st) = createLabelCounter /\
  nodes (Nat.iter k undo (clearFunnel st)) = [] /\
  edges (Nat.iter k undo (clearFunnel st)) = [].
Proof.
  intro I. destruct (clearFunnel_shape I) as (I' & Hh & Hx & Hn & He & Hc & Hs).
  split; [unfold canUndo; now rewrite Hx|]. split; [assumption|]. split; [assumption|].
  assert (P : Inv (Nat.iter k undo (clearFunnel st)) /\
              history (Nat.iter k undo (clearFunnel st)) = [emptyFunnel; emptyFunnel] /\
              nodes (Nat.iter k undo (clearFunnel st)) = [] /\
              edges (Nat.iter k undo (clearFunnel st)) = []).
  { induction k as [|k IH];
      [rewrite iter_O; split; [assumption|split; [assumption|split; assumption]]|].
    rewrite iter_S. destruct IH as (A & B & C & D). now apply undo_in_cleared. }
  split; apply P.
Qed.

Lemma clear_cannot_be_undone_witness :
  nodes (Nat.iter 3 undo (clearFunnel defaultStore)) = [] /\
  canUndo (clearFunnel defaultStore) = true.
Proof.
  destruct (@clear_cannot_be_undone defaultStore 3 (proj1 defaultStore_good))
    as (U & _ & _ & Hn & _).
  split; assumption.
Defined.

(** ** Labels stay fresh *)
















Section FreshLabels.

Variable applyNodeChanges : list NodeChange -> list FunnelNode -> list FunnelNode.
Variable applyEdgeChanges : list EdgeChange -> list FunnelEdge -> list FunnelEdge.
Variable addEdge : EdgeParams -> list FunnelEdge -> list FunnelEdge.






End FreshLabels.

Lemma fold_applyNodeChange_same cs :
  forall n, id (fold_left applyNodeChange cs n) = id n
            /\ data (fold_left applyNodeChange cs n) = data n.
Proof.
  induction cs as [|c cs IH]; intro n; [now split|].
  cbn [fold_left]. destruct (IH (applyNodeChange n c)) as (Hi & Hd).
  rewrite Hi, Hd. destruct c as [i [p|] d|i|i s|i|item|i item]; now split.
Qed.

Lemma queuedNodeChanges_from changes nid c :
  In c (queuedNodeChanges changes nid) -> In c changes.
Proof.
  unfold queuedNodeChanges.
  assert (G : forall queued,
             In c (fold_left
                     (fun queued c =>
                        match c with
                        | AddChange _ => queued
                        | RemoveChange i | ReplaceChange i _ =>
                            if String.eqb i nid then [c] else queued
                        | PositionChange i _ _ | DimensionsChange i
                        | SelectChange i _ =>
                            if String.eqb i nid then queued ++ [c] else queued
                        end) changes queued) ->
             In c queued \/ In c changes).
  { induction changes as [|d changes IH]; intros queued X; [now left|].
    cbn [fold_left] in X. apply IH in X. destruct X as [X|X]; [|right; now right].
    destruct d as [i p g|i|i g|i|item|i item]; try (now left);
      destruct (String.eqb i nid); try (now left);
      try (apply in_app_or in X; destruct X as [X|[<-|[]]]; [now left|right; now left]);
      destruct X as [<-|[]]; right; now left. }
  intro X. destruct (G [] X) as [[]|Y]. exact Y.
Qed.

(** With the changes the canvas emits for moving, measuring, selecting and
    removing, the library function rewrites neither ids nor data. *)
Lemma libApplyNodeChanges_keepsData changes :
  forallb movesSelectsRemoves changes = true ->
  keepsData (libApplyNodeChanges changes).
Proof.
  intros F nds n X. unfold libApplyNodeChanges in X.
  rewrite forallb_forall in F.
  apply in_app_or in X. destruct X as [X|X].
  - apply in_flat_map in X. destruct X as (n0 & X0 & X). exists n0.
    split; [exact X0|].
    destruct (queuedNodeChanges changes (id n0)) as [|c queued] eqn:Q.
    + destruct X as [<-|[]]. now split.
    + assert (M : movesSelectsRemoves c = true).
      { apply F. apply (@queuedNodeChanges_from changes (id n0) c).
        rewrite Q. now left. }
      destruct c as [i p g|i|i g|i|item|i item]; try discriminate M;
        try destruct X as [<-|[]]; try apply fold_applyNodeChange_same.
      destruct X.
  - exfalso. apply in_flat_map in X. destruct X as (c & Xc & X).
    specialize (F c Xc). destruct c; try destruct X; discriminate F.
Qed.



(** ** Importing *)



(** ** Handles *)

(** X23.  The store and the canvas agree on which nodes can start a
    connection.  [onConnect] takes its early return, leaving the store as
    it is, exactly when the source node it finds is of a kind whose
    configuration has no outgoing handle, which is the thankYou page and no
    other kind; every other connection is handed to [addEdge], and the
    store is written when [addEdge] returns an array with other contents. *)
Theorem connect_guard_matches_config addEdge (connection : Connection) (st : Store) :
  onConnect addEdge connection st
  = (if sourceHasNoHandle connection st then st
     else if sameEdges (addEdge {| p_connection := connection; p_animated := true |}
                          (edges st)) (edges st)
          then st
          else rerender st false true
                 (setEdges (addEdge {| p_connection := connection; p_animated := true |}
                              (edges st)) st)) /\
  (forall t, canHaveOutgoing (NODE_TYPE_CONFIG t) = false <-> t = thankYou).
Proof.
  split.
  - unfold onConnect, sourceHasNoHandle.
    destruct (find _ (nodes st)) as [n|]; [|reflexivity].
    destruct (nodeType (data n)); reflexivity.
  - intro t. destruct t; cbn; split; congruence.
Qed.

(** ** A timer left pending *)

(** X24.  The debounce timer of a drag is not cancelled by a node change
    without a position.  Such a change arriving while the timer is pending
    (a click, a removal) takes its snapshot at once and leaves the timer
    armed; when the timer fires it pushes the state it captured
    before that change.  The canvas then shows the state after the change,
    while the history entry the index points at holds the state before it,
    and the state shown is the entry below. *)
Theorem pending_timer_pushes_stale_snapshot applyNodeChanges changes st :
  Dragging st -> existsb isPositionChange changes = false ->
  let after := onNodesChange applyNodeChanges changes st in
  let fired := dragTimerFires after in
  nodes after = applyNodeChanges changes (nodes st) /\
  dragDebounceTimerRef after = Some {| s_nodes := nodes st; s_edges := edges st |} /\
  nodes fired = nodes after /\ edges fired = edges st /\
  arrayGet (history fired) (currentIndex fired)
  = Some {| s_nodes := nodes st; s_edges := edges st |} /\
  arrayGet (history fired) (currentIndex fired - 1)
  = Some {| s_nodes := nodes fired; s_edges := edges fired |}.
Proof.
  intros ((Hi & Hl & Hu & Hv & Hr) & Hd & Ht & B & R) P. cbv zeta.
  unfold onNodesChange. rewrite P.
  rewrite rerender_write; try assumption; try reflexivity.
  set (w := setNodes (applyNodeChanges changes (nodes (setIsDraggingRef false st)))
              (setIsDraggingRef false st)).
  set (cur := {| s_nodes := nodes w; s_edges := edges w |}).
  set (old := {| s_nodes := nodes st; s_edges := edges st |}) in *.
  pose proof (@next_length (currentIndex st) (history st) cur R B) as L1.
  pose proof (@next_index_latest (currentIndex st) (history st) cur R B) as X1.
  pose proof (@next_index_positive (currentIndex st) (history st) cur R B) as P1.
  pose proof (@next_entry (currentIndex st) (history st) cur R B) as E1.
  assert (S : settled (afterWrite false w)) by (repeat split).
  assert (T : dragDebounceTimerRef (afterWrite false w) = Some old) by exact Ht.
  rewrite (@dragTimerFires_eq (afterWrite false w) old S T).
  cbn [afterTimer afterWrite nodes edges history currentIndex].
  change (history w) with (history st). change (currentIndex w) with (currentIndex st).
  fold cur.
  set (n1 := nextHistoryAndIndex (currentIndex st) (history st) cur) in *.
  assert (R1 : 0 <= snd n1 < Z.of_nat (List.length (fst n1))) by lia.
  split; [reflexivity|]. split; [exact Ht|]. split; [reflexivity|].
  split; [reflexivity|]. split.
  - apply next_entry; assumption.
  - rewrite (@next_previous (snd n1) (fst n1) old R1 L1). exact E1.
Qed.

Lemma pending_timer_pushes_stale_snapshot_witness :
  let fired := dragTimerFires
                 (onNodesChange libApplyNodeChanges [RemoveChange "thankyou-1"] midDrag) in
  map id (nodes fired) = ["sales-1"; "order-1"] /\
  option_map (fun s => map id (s_nodes s)) (arrayGet (history fired) (currentIndex fired))
  = Some ["sales-1"; "order-1"; "thankyou-1"].
Proof.
  assert (D : Dragging midDrag).
  { apply (@drag_move libApplyNodeChanges defaultStore (moveOrder 300 300));
      try apply defaultStore_good; reflexivity. }
  pose proof (@pending_timer_pushes_stale_snapshot libApplyNodeChanges
                [RemoveChange "thankyou-1"] midDrag D eq_refl) as H.
  cbv zeta in *. destruct H as (Hn & _ & Hf & _ & He & _).
  split; [rewrite Hf, Hn; reflexivity|]. rewrite He. reflexivity.
Defined.

(** ** Warnings are never stale *)

Lemma warningCurrent_same eds n n0 :
  id n = id n0 -> data n = data n0 -> warningCurrent eds n0 -> warningCurrent eds n.
Proof.
  intros Hi Hd. unfold warningCurrent, computeWarning, outgoingEdges, incomingEdges.
  now rewrite Hi, Hd.
Qed.

Lemma warningCurrent_validated eds n : warningCurrent eds (validateNode eds n).
Proof.
  left. pose proof (validateNode_settled eds n) as S.
  now apply warningDiffers_false in S.
Qed.

Lemma validated_current eds nds n :
  In n (validateNodes eds nds) -> warningCurrent eds n.
Proof.
  intro X. unfold validateNodes in X. apply in_map_iff in X.
  destruct X as (n0 & <- & _). apply warningCurrent_validated.
Qed.

Lemma kept_current eds (f : list FunnelNode -> list FunnelNode) nds :
  keepsData f -> (forall n, In n nds -> warningCurrent eds n) ->
  forall n, In n (f nds) -> warningCurrent eds n.
Proof.
  intros K C n X. destruct (K nds n X) as (n0 & X0 & Hi & Hd).
  apply (@warningCurrent_same eds n n0 Hi Hd). now apply C.
Qed.

Lemma keepsData_filter (p : FunnelNode -> bool) : keepsData (filter p).
Proof. intros nds n X. apply filter_In in X. exists n. now repeat split. Qed.

Section Warnings.

Variable applyNodeChanges : list NodeChange -> list FunnelNode -> list FunnelNode.
Variable applyEdgeChanges : list EdgeChange -> list FunnelEdge -> list FunnelEdge.
Variable addEdge : EdgeParams -> list FunnelEdge -> list FunnelEdge.

Lemma fold_changes_current eds moves :
  (forall changes, In changes moves -> keepsData (applyNodeChanges changes)) ->
  forall nds : list FunnelNode,
    (forall n, In n nds -> warningCurrent eds n) ->
    forall n, In n (fold_left (fun nds cs => applyNodeChanges cs nds) moves nds) ->
              warningCurrent eds n.
Proof.
  induction moves as [|changes moves IH]; intros K nds C; [exact C|].
  cbn [fold_left]. apply IH.
  - intros cs X. apply K. now right.
  - apply kept_current; [apply K; now left|exact C].
Qed.

Lemma mutate_current st m st' :
  Inv st -> WarningsCurrent st -> settles m = true ->
  (forall changes, In changes (nodeChangesOf (Mutate m)) ->
                   keepsData (applyNodeChanges changes)) ->
  mutate applyNodeChanges applyEdgeChanges addEdge m st = Some st' ->
  WarningsCurrent st'.
Proof.
  intros I C N K H. pose proof (inv_timer I) as T.
  assert (V : forall w, WarningsCurrent (afterWrite true w))
    by (intros w n X; apply (@validated_current (edges w) (nodes w) n X)).
  destruct m; cbn [mutate settles nodeChangesOf] in *.
  - apply Some_inj in H; subst st'. rewrite (addNode_eq I). intros n X.
    cbn [afterWrite nodes edges setLabelCounts setNodes] in *.
    apply in_app_or in X. destruct X as [X|[<-|[]]]; [now apply C|].
    right. split; reflexivity.
  - apply Some_inj in H; subst st'. rewrite (deleteNode_eq I). apply V.
  - apply Some_inj in H; subst st'. rewrite (deleteEdge_eq I). apply V.
  - apply Some_inj in H; subst st'.
    destruct (onConnect_cases addEdge I connection) as [-> | ->]; [assumption|apply V].
  - apply Some_inj in H; subst st'. apply Bool.negb_true_iff in N.
    rewrite (@onNodesChange_eq applyNodeChanges st I changes N). intros n X.
    cbn [afterWrite nodes edges setNodes setIsDraggingRef] in *.
    apply (@kept_current (edges st) (applyNodeChanges changes) (nodes st));
      [apply K; now left|exact C|exact X].
  - apply Some_inj in H; subst st'.
    destruct moves as [|changes moves].
    + cbn [fold_left]. unfold dragTimerFires. now rewrite T.
    + destruct (@drag_mid applyNodeChanges st changes moves I N)
        as ((D & Hy & Hx & He & Hc & P) & Hn).
      revert D Hy Hx He Hc P Hn.
      set (mid := fold_left (fun s cs => onNodesChange applyNodeChanges cs s)
                    (changes :: moves) st).
      intros D Hy Hx He Hc P Hn.
      pose proof D as (Hs & _ & Ht & _ & _).
      rewrite (@dragTimerFires_eq mid _ Hs Ht). intros n X.
      cbn [afterTimer nodes edges] in *. rewrite He. rewrite Hn in X.
      apply (@fold_changes_current (edges st) (changes :: moves) K
               (nodes st) C n X).
  - apply Some_inj in H; subst st'.
    rewrite (@onEdgesChange_eq applyEdgeChanges st I). apply V.
  - destruct (importFunnel parsed st) as [b o] eqn:E. cbn [snd] in H. subst o.
    destruct (importFunnel_cases I _ E) as [(_ & ->) | (ns & es & lc & ->)];
      [assumption|apply V].
  - apply Some_inj in H; subst st'. rewrite (clearFunnel_eq I). apply V.
Qed.

Lemma undo_current st : Inv st -> WarningsCurrent st -> WarningsCurrent (undo st).
Proof.
  intros I C.
  destruct (Z.leb_spec (currentIndex st) 0) as [Z0|P].
  - now rewrite undo_at_bottom.
  - destruct (undo_eq I P) as (entry & E & ->). intros n X.
    apply (@validated_current (s_edges entry) (s_nodes entry) n X).
Qed.

Lemma redo_current st : Inv st -> WarningsCurrent st -> WarningsCurrent (redo st).
Proof.
  intros I C.
  destruct (Z.leb_spec (Z.of_nat (List.length (history st)) - 1) (currentIndex st))
    as [Z0|P].
  - now rewrite redo_at_top.
  - destruct (redo_eq I P) as (entry & E & ->). intros n X.
    apply (@validated_current (s_edges entry) (s_nodes entry) n X).
Qed.

Lemma actAll_current acts :
  forall st st',
    Tracked st -> WarningsCurrent st -> forallb settlesAction acts = true ->
    (forall a changes, In a acts -> In changes (nodeChangesOf a) ->
                       keepsData (applyNodeChanges changes)) ->
    actAll applyNodeChanges applyEdgeChanges addEdge acts st = Some st' ->
    WarningsCurrent st'.
Proof.
  induction acts as [|a acts IH]; intros st st' T C N K H; cbn [actAll] in H.
  - apply Some_inj in H. now subst.
  - cbn [forallb] in N. apply Bool.andb_true_iff in N. destruct N as [Na Nas].
    destruct (act applyNodeChanges applyEdgeChanges addEdge a st) as [st1|] eqn:E;
      cbn [bind] in H; [|discriminate].
    apply (IH st1 st'); try assumption.
    + apply (@act_tracked applyNodeChanges applyEdgeChanges addEdge st a st1 T Na E).
    + destruct a as [m| |]; cbn [act settlesAction] in *.
      * apply (@mutate_current st m st1 (proj1 T) C Na); [|exact E].
        intros changes X. apply (K (Mutate m)); [now left|exact X].
      * apply Some_inj in E. subst st1. apply undo_current; [apply T|exact C].
      * apply Some_inj in E. subst st1. apply redo_current; [apply T|exact C].
    + intros b changes X. apply K. now right.
Qed.

(** X25.  A warning on the canvas is never stale.  Through loading,
    mutations, drags, undo and redo (with node changes that rewrite neither
    ids nor data), every node either carries exactly the warning the rules
    give it for the edges of the store, or carries no warning fields at
    all; the latter only happens to nodes added since the edges last
    changed, which wait for the next validation pass. *)
Theorem warnings_never_stale saved acts st :
  forallb settlesAction acts = true ->
  (forall a changes, In a acts -> In changes (nodeChangesOf a) ->
                     keepsData (applyNodeChanges changes)) ->
  play applyNodeChanges applyEdgeChanges addEdge saved acts = Some st ->
  forall n, In n (nodes st) ->
    (hasWarning (data n) = Some (fst (computeWarning (edges st) n)) /\
     warningMessage (data n) = Some (snd (computeWarning (edges st) n)))
    \/ (hasWarning (data n) = None /\ warningMessage (data n) = None).
Proof.
  intros N K H. unfold play in H.
  destruct (mount saved) as [st0|] eqn:M; cbn [bind] in H; [|discriminate].
  apply (@actAll_current acts st0 st (@mount_tracked saved st0 M)); try assumption.
  destruct (mount_eq _ M) as (w & -> & _ & _). intros n X.
  apply (@validated_current (edges w) (nodes w) n X).
Qed.

End Warnings.

Lemma warnings_never_stale_witness :
  exists st,
    libPlay Absent deleteThenAdd = Some st /\
    map (fun n => hasWarning (data n)) (nodes st)
    = [Some true; Some true; Some false; None] /\
    forall n, In n (nodes st) ->
              hasWarning (data n) = Some (fst (computeWarning (edges st) n))
              \/ hasWarning (data n) = None.
Proof.
  destruct (libPlay Absent deleteThenAdd) as [st|] eqn:E;
    [|vm_compute in E; discriminate E].
  exists st. split; [reflexivity|].
  assert (K : forall a changes, In a deleteThenAdd -> In changes (nodeChangesOf a) ->
                                keepsData (libApplyNodeChanges changes)).
  { intros a changes X Xc. apply libApplyNodeChanges_keepsData.
    repeat (destruct X as [<-|X]; [repeat (destruct Xc as [<-|Xc]; [reflexivity|]);
                                  destruct Xc|]).
    destruct X. }
  pose proof (@warnings_never_stale libApplyNodeChanges libApplyEdgeChanges libAddEdge
                Absent deleteThenAdd st eq_refl K E) as F.
  split.
  - vm_compute in E. apply Some_inj in E. subst st. reflexivity.
  - intros n X. destruct (F n X) as [(A & _)|(A & _)]; [now left|now right].
Defined.
